(** * ewerobot: credential cache, retrying request executor and JS-SDK signature

    A shallow embedding of [ewerobot/util.py] and of the core of
    [ewerobot/ewerobot.py] (class [EClient]), with the properties of
    the design document checked against it.

    Conventions of the embedding.
    - A Python [str] is a Rocq [string] holding its UTF-8 bytes, so
      [s.encode('utf-8')] is the byte list of the string and [len] of
      the encoding is [String.length].  Comparing two [str] by code
      point is comparing their UTF-8 encodings byte by byte.
      [str.lower] is embedded on the ASCII range, which is where the
      parameter names of the platform live.
    - A Python [dict] with [str] keys is an association list in
      insertion order; a well-formed dict has no repeated key.
    - A Python [float] is an IEEE 754 binary64 with the operations of
      [SpecFloat]: 53 bits of precision, round to nearest even.
      [time.time()] returns one.  The JSON numbers of the platform are
      integers. *)

From Stdlib Require Import List String Ascii Bool Arith NArith ZArith QArith Lia.
From Stdlib Require Import Floats.SpecFloat.
From Stdlib Require Import Permutation Sorted.
From Stdlib Require DecimalString.
Import ListNotations.

Local Open Scope string_scope.
Local Open Scope list_scope.

(* ================================================================= *)
(** ** Python strings and dicts *)

Module Py.

(** [c.lower()] for one character of the ASCII range. *)
Definition lower_ascii (c : ascii) : ascii :=
  let n := nat_of_ascii c in
  if (65 <=? n)%nat && (n <=? 90)%nat then ascii_of_nat (n + 32) else c.

(** [s.lower()] *)
Fixpoint lower (s : string) : string :=
  match s with
  | EmptyString => EmptyString
  | String c s' => String (lower_ascii c) (lower s')
  end.

(** [s.encode('utf-8')] *)
Definition encode_utf8 (s : string) : list N :=
  map N_of_ascii (list_ascii_of_string s).

(** [sep.join(l)] *)
Definition join (sep : string) (l : list string) : string :=
  String.concat sep l.

(** ['%s=%s' % (a, b)] for two [str] arguments. *)
Definition fmt_eq (a b : string) : string := a ++ "=" ++ b.

(** [a <= b] on [str]. *)
Definition str_le (a b : string) : bool := String.leb a b.

(** [sorted(l)] on a list of [str]: the list in ascending order.
    Python's sort is stable; so is this insertion sort. *)
Fixpoint insert (x : string) (l : list string) : list string :=
  match l with
  | [] => [x]
  | y :: l' => if str_le x y then x :: l else y :: insert x l'
  end.

Fixpoint sorted (l : list string) : list string :=
  match l with
  | [] => []
  | x :: l' => insert x (sorted l')
  end.

(** Dictionaries: association lists in insertion order. *)
Definition dict (V : Type) : Type := list (string * V).

Definition keys {V} (d : dict V) : list string := map fst d.

(** [d[k]]; [None] stands for [KeyError]. *)
Fixpoint getitem {V} (d : dict V) (k : string) : option V :=
  match d with
  | [] => None
  | (k', v) :: d' => if String.eqb k k' then Some v else getitem d' k
  end.

(** [k in d] *)
Definition contains {V} (d : dict V) (k : string) : bool :=
  match getitem d k with Some _ => true | None => false end.

(** [d[k] = v]: an existing key keeps its place. *)
Fixpoint setitem {V} (d : dict V) (k : string) (v : V) : dict V :=
  match d with
  | [] => [(k, v)]
  | (k', v') :: d' =>
      if String.eqb k k' then (k, v) :: d' else (k', v') :: setitem d' k v
  end.

Definition well_formed {V} (d : dict V) : Prop := NoDup (keys d).

End Py.

(* ================================================================= *)
(** ** hashlib.sha1 (FIPS 180-4), on 32-bit words held in [N] *)

Module SHA1.
Local Open Scope N_scope.

Definition mask32 : N := 0xFFFFFFFF.
Definition add32 (x y : N) : N := N.land (x + y) mask32.
Definition rotl (n x : N) : N :=
  N.land (N.lor (N.shiftl x n) (N.shiftr x (32 - n))) mask32.
Definition not32 (x : N) : N := N.lxor x mask32.

Definition Ch (x y z : N) := N.lxor (N.land x y) (N.land (not32 x) z).
Definition Parity (x y z : N) := N.lxor (N.lxor x y) z.
Definition Maj (x y z : N) :=
  N.lxor (N.lxor (N.land x y) (N.land x z)) (N.land y z).

(** Round function and constant of round [t]. *)
Definition f (t : nat) (x y z : N) : N :=
  if (t <? 20)%nat then Ch x y z
  else if (t <? 40)%nat then Parity x y z
  else if (t <? 60)%nat then Maj x y z
  else Parity x y z.

Definition K (t : nat) : N :=
  if (t <? 20)%nat then 0x5A827999
  else if (t <? 40)%nat then 0x6ED9EBA1
  else if (t <? 60)%nat then 0x8F1BBCDC
  else 0xCA62C1D6.

(** Padding: a 1 bit, zeros up to 56 mod 64, the bit length on 64 bits. *)
Fixpoint be_bytes (n : nat) (x : N) : list N :=
  match n with
  | O => []
  | S n' => N.land (N.shiftr x (8 * N.of_nat n')) 0xFF :: be_bytes n' x
  end.

Definition pad (msg : list N) : list N :=
  let len := List.length msg in
  let zeros := ((64 - ((len + 9) mod 64)) mod 64)%nat in
  msg ++ [0x80] ++ repeat 0 zeros ++ be_bytes 8 (8 * N.of_nat len).

(** Big-endian 32-bit words of a byte list. *)
Fixpoint words (l : list N) : list N :=
  match l with
  | b0 :: b1 :: b2 :: b3 :: r =>
      N.lor (N.lor (N.shiftl b0 24) (N.shiftl b1 16))
            (N.lor (N.shiftl b2 8) b3) :: words r
  | _ => []
  end.

Fixpoint blocks (fuel : nat) (l : list N) : list (list N) :=
  match fuel with
  | O => []
  | S fuel' =>
      match l with
      | [] => []
      | _ => firstn 64 l :: blocks fuel' (skipn 64 l)
      end
  end.

(** Message schedule, newest word first: [rev_w] holds W(t-1), W(t-2), ... *)
Fixpoint schedule (n : nat) (rev_w : list N) : list N :=
  match n with
  | O => rev_w
  | S n' =>
      let x := N.lxor (N.lxor (nth 2 rev_w 0) (nth 7 rev_w 0))
                      (N.lxor (nth 13 rev_w 0) (nth 15 rev_w 0)) in
      schedule n' (rotl 1 x :: rev_w)
  end.

Definition state : Type := N * N * N * N * N.

Fixpoint rounds (t : nat) (W : list N) (s : state) : state :=
  match W with
  | [] => s
  | wt :: W' =>
      let '(a, b, c, d, e) := s in
      let temp := add32 (add32 (add32 (add32 (rotl 5 a) (f t b c d)) e) (K t)) wt in
      rounds (S t) W' (temp, a, rotl 30 b, c, d)
  end.

Definition compress (h : state) (block : list N) : state :=
  let W := rev (schedule 64 (rev (words block))) in
  let '(a, b, c, d, e) := rounds 0 W h in
  let '(h0, h1, h2, h3, h4) := h in
  (add32 h0 a, add32 h1 b, add32 h2 c, add32 h3 d, add32 h4 e).

Definition H0 : state :=
  (0x67452301, 0xEFCDAB89, 0x98BADCFE, 0x10325476, 0xC3D2E1F0).

Definition sha1 (msg : list N) : state :=
  let p := pad msg in
  fold_left compress (blocks (List.length p) p) H0.

(** [.hexdigest()]: forty lower-case hexadecimal digits. *)
Definition hex_digit (x : N) : ascii :=
  if x <? 10 then ascii_of_N (48 + x) else ascii_of_N (87 + x).

Fixpoint hex_word (n : nat) (x : N) : string :=
  match n with
  | O => EmptyString
  | S n' => String (hex_digit (N.land (N.shiftr x (4 * N.of_nat n')) 0xF))
                   (hex_word n' x)
  end.

Definition hexdigest (s : state) : string :=
  let '(h0, h1, h2, h3, h4) := s in
  (hex_word 8 h0 ++ hex_word 8 h1 ++ hex_word 8 h2 ++ hex_word 8 h3
     ++ hex_word 8 h4)%string.

Definition sha1_hex (s : string) : string :=
  hexdigest (sha1 (Py.encode_utf8 s)).

End SHA1.

(* ================================================================= *)
(** ** util.get_signature *)

(** The canonical string:
    ['&'.join(['%s=%s' % (key.lower(), sign_param[key])
               for key in sorted(sign_param)])].
    [sorted(sign_param)] sorts the keys as the caller wrote them; every
    key it yields is a key of the dict, so the lookup cannot fail. *)
Definition value_of (sign_param : Py.dict string) (key : string) : string :=
  match Py.getitem sign_param key with
  | Some v => v
  | None => EmptyString
  end.

Definition signature_string (sign_param : Py.dict string) : string :=
  Py.join "&"
    (map (fun key => Py.fmt_eq (Py.lower key) (value_of sign_param key))
         (Py.sorted (Py.keys sign_param))).

Definition get_signature (sign_param : Py.dict string) : string :=
  SHA1.sha1_hex (signature_string sign_param).

(** The signing rule as the design document words it: lower-case every
    parameter name, sort the entries by name in byte order, join them
    as [name=value] with [&], hash with SHA-1. *)
Definition lower_names (m : Py.dict string) : Py.dict string :=
  map (fun e => (Py.lower (fst e), snd e)) m.

Fixpoint insert_entry (e : string * string) (l : Py.dict string)
  : Py.dict string :=
  match l with
  | [] => [e]
  | e' :: l' =>
      if Py.str_le (fst e) (fst e') then e :: l else e' :: insert_entry e l'
  end.

Fixpoint sort_entries (l : Py.dict string) : Py.dict string :=
  match l with
  | [] => []
  | e :: l' => insert_entry e (sort_entries l')
  end.

(** Lower-casing the names of [m] does not change how they compare. *)
Definition lower_keeps_order (m : Py.dict string) : Prop :=
  forall k1 k2, In k1 (Py.keys m) -> In k2 (Py.keys m) ->
    Py.str_le (Py.lower k1) (Py.lower k2) = Py.str_le k1 k2.

(** The worked example of the design document. *)
Definition example_params : Py.dict string :=
  [("Timestamp", "1"); ("Url", "http://x"); ("Noncestr", "abc");
   ("JsapiTicket", "t")].

Definition spec_sign (m : Py.dict string) : string :=
  SHA1.sha1_hex
    (Py.join "&"
       (map (fun e => Py.fmt_eq (fst e) (snd e))
            (sort_entries (lower_names m)))).

(* ================================================================= *)
(** ** Values, exceptions and the world outside the client *)

(** Decoded JSON and the values the client stores in its fields. *)
#[warnings="-register-all"]
Inductive value : Type :=
| VNone
| VBool (b : bool)
| VInt (z : Z)
| VStr (s : string)
| VList (l : list value)
| VDict (d : list (string * value)).

(** Truth value of an object in an [if]. *)
Definition truthy (v : value) : bool :=
  match v with
  | VNone => false
  | VBool b => b
  | VInt z => negb (z =? 0)%Z
  | VStr s => negb (String.eqb s "")
  | VList l => match l with [] => false | _ => true end
  | VDict d => match d with [] => false | _ => true end
  end.

(** [v == n] for an integer literal [n]; [True] and [False] compare as
    1 and 0. *)
Definition py_eq_int (v : value) (n : Z) : bool :=
  match v with
  | VInt z => (z =? n)%Z
  | VBool b => ((if b then 1 else 0) =? n)%Z
  | _ => false
  end.

(** The exceptions that travel through the client.
    [AccessTokenInvalid] and [ClientException] are built from the text
    ["{}: {}".format(json["errcode"], json["errmsg"])]; the embedding
    keeps the two formatted values.  [RequestException] stands for
    every transport error of [requests] that is not a timeout, among
    them the [HTTPError] of [raise_for_status]; [ValueError] is a
    response body that is not JSON, or [int] of a NaN; [OverflowError]
    is a conversion between [int] and [float] that has no result;
    [RecursionError] ends a recursion that is too deep. *)
Inductive exn : Type :=
| AccessTokenInvalid (errcode errmsg : value)
| ClientException (errcode errmsg : value)
| ConnectTimeout
| ReadTimeout
| RequestException
| ValueError
| OverflowError
| RecursionError
| KeyError (key : string)
| TypeError
| AssertionError.

Inductive result (A : Type) : Type :=
| Ok (a : A)
| Raise (e : exn).
Arguments Ok {A} a.
Arguments Raise {A} e.

(** *** Python floats *)

Definition float : Type := spec_float.

(** The double nearest to [m * 2^e]; ties go to the even mantissa, and
    what is too large becomes an infinity. *)
Definition double (m e : Z) : float := binary_normalize 53 1024 m e false.

(** [float(z)] of an [int], as the arithmetic of [float] converts an
    [int] operand: rounded, ["int too large to convert to float"] when
    the result is not finite. *)
Definition float_of_int (z : Z) : result float :=
  match double z 0 with
  | S754_infinity _ => Raise OverflowError
  | x => Ok x
  end.

(** [int(x)] of a [float]: truncation towards zero. *)
Definition py_int (x : float) : result Z :=
  match x with
  | S754_zero _ => Ok 0%Z
  | S754_finite s m e => Ok (cond_Zopp s (Z.shiftl (Zpos m) e))
  | S754_infinity _ => Raise OverflowError
  | S754_nan => Raise ValueError
  end.

(** [a - y] for an [int] a and a [float] y: [int.__sub__] gives way to
    [float.__rsub__], which converts [a] and subtracts in binary64. *)
Definition int_sub_float (a : Z) (y : float) : result float :=
  match float_of_int a with
  | Ok x => Ok (SFsub 53 1024 x y)
  | Raise e => Raise e
  end.

(** [x * 1000] for a [float] x. *)
Definition float_mul_1000 (x : float) : float :=
  SFmul 53 1024 x (double 1000 0).

(** [x > 60] for a [float] x; it is false of a NaN. *)
Definition more_than_60 (x : float) : bool := SFltb (double 60 0) x.

(** The number that a finite double stands for. *)
Definition exact (x : float) : Q :=
  match x with
  | S754_finite s m e => inject_Z (cond_Zopp s (Zpos m)) * Qpower 2 e
  | _ => 0
  end.

(** The instance fields set by [EClient.init_app]. *)
Record EClient : Type := mkEClient {
  _token : value;
  _jsapi_ticket : value;
  token_expires_at : value;
  jsapi_ticket_expires_at : value
}.

Definition init_app : EClient :=
  {| _token := VNone; _jsapi_ticket := VNone;
     token_expires_at := VNone; jsapi_ticket_expires_at := VNone |}.

(** What the client does to the outside, in the order it does it. *)
Inductive event : Type :=
| EvCall
    (** the decorator of [request] calls the function: one attempt *)
| EvGrant (reply : result (option (Py.dict value)))
    (** [self.grant_token()] was called and answered *)
| EvHttp (method url : string) (params : Py.dict value) (data : option value)
         (reply : result (Py.dict value)).
    (** [requests.request(...)], [raise_for_status()] and [r.json()] *)

(** The outside world answers the n-th reading of the clock, the n-th
    call of [grant_token] and the n-th HTTP call.

    A reading of the clock is the double nearest to [m * 2^e] for the
    pair [(m, e)] that the world gives.

    [grant_token] is werobot's [Client.grant_token]:
    [self.get(url=".../cgi-bin/token", params={grant_type, appid, secret})],
    a request of its own to the token endpoint.  That request goes
    through [EClient.request] like any other: it is retried, and when
    the token endpoint answers with errcode 40001 its handler calls
    [get_access_token(force=True)], which stores what it gets and calls
    [grant_token] again; a token endpoint that keeps answering 40001
    ends the call in [RecursionError].  So a call of [grant_token],
    whether it returns or raises, can have written the two fields of
    the access token.  The world says what the call returns or raises
    ([grant_token_reply]) and what it leaves in [_token] and
    [token_expires_at], given what it found there
    ([grant_token_leaves]); the traffic inside the call is not part of
    the trace. *)
Record Env : Type := mkEnv {
  clock : nat -> Z * Z;
  grant_token_reply : nat -> result (option (Py.dict value));
  grant_token_leaves : nat -> value * value -> value * value;
  http_reply : nat -> result (Py.dict value)
}.

(** What the n-th call of [time.time()] returns. *)
Definition time_time (env : Env) (n : nat) : float :=
  double (fst (clock env n)) (snd (clock env n)).

Record State : Type := mkState {
  client : EClient;
  clock_reads : nat;
  grant_calls : nat;
  http_calls : nat;
  trace : list event
}.

Definition initial (c : EClient) : State :=
  {| client := c; clock_reads := 0; grant_calls := 0; http_calls := 0;
     trace := [] |}.

(** Computations of the client: they read the world, change the state
    and return or raise. *)
Definition M (A : Type) : Type := Env -> State -> result A * State.

Definition ret {A} (a : A) : M A := fun _ s => (Ok a, s).
Definition raise {A} (e : exn) : M A := fun _ s => (Raise e, s).
Definition bind {A B} (m : M A) (k : A -> M B) : M B :=
  fun env s =>
    match m env s with
    | (Ok a, s') => k a env s'
    | (Raise e, s') => (Raise e, s')
    end.
Definition lift {A} (r : result A) : M A := fun _ s => (r, s).

Declare Scope py_scope.
Delimit Scope py_scope with py.
Notation "x <- m ;; k" := (bind m (fun x => k))
  (at level 61, m at next level, right associativity) : py_scope.
Notation "m ;;; k" := (bind m (fun _ => k))
  (at level 61, right associativity) : py_scope.
Local Open Scope py_scope.

(** The changes a step makes to the state. *)
Definition update_client (f : EClient -> EClient) (s : State) : State :=
  {| client := f (client s); clock_reads := clock_reads s;
     grant_calls := grant_calls s; http_calls := http_calls s;
     trace := trace s |}.

Definition record (ev : event) (s : State) : State :=
  {| client := client s; clock_reads := clock_reads s;
     grant_calls := grant_calls s; http_calls := http_calls s;
     trace := trace s ++ [ev] |}.

Definition tick (s : State) : State :=
  {| client := client s; clock_reads := S (clock_reads s);
     grant_calls := grant_calls s; http_calls := http_calls s;
     trace := trace s |}.

Definition granted (s : State) : State :=
  {| client := client s; clock_reads := clock_reads s;
     grant_calls := S (grant_calls s); http_calls := http_calls s;
     trace := trace s |}.

Definition requested (s : State) : State :=
  {| client := client s; clock_reads := clock_reads s;
     grant_calls := grant_calls s; http_calls := S (http_calls s);
     trace := trace s |}.

Definition get_client : M EClient := fun _ s => (Ok (client s), s).

Definition set_client (f : EClient -> EClient) : M unit :=
  fun _ s => (Ok tt, update_client f s).

Definition log (ev : event) : M unit :=
  fun _ s => (Ok tt, record ev s).

(** [time.time()] *)
Definition time : M float :=
  fun env s => (Ok (time_time env (clock_reads s)), tick s).

(** The two fields of the access token. *)
Definition set_token_fields (p : value * value) (c : EClient) : EClient :=
  {| _token := fst p; _jsapi_ticket := _jsapi_ticket c;
     token_expires_at := snd p;
     jsapi_ticket_expires_at := jsapi_ticket_expires_at c |}.

(** The client after the call of [grant_token] that finds it in [s]. *)
Definition left_by_grant_token (env : Env) (s : State) : EClient -> EClient :=
  set_token_fields
    (grant_token_leaves env (grant_calls s)
       (_token (client s), token_expires_at (client s))).

(** [self.grant_token()] *)
Definition grant_token : M (option (Py.dict value)) :=
  fun env s =>
    let r := grant_token_reply env (grant_calls s) in
    (r, record (EvGrant r)
          (granted (update_client (left_by_grant_token env s) s))).

(** [r = requests.request(...); r.raise_for_status(); r.json()] *)
Definition requests_request (method url : string) (params : Py.dict value)
    (data : option value) : M (Py.dict value) :=
  fun env s =>
    let r := http_reply env (http_calls s) in
    (r, record (EvHttp method url params data r) (requested s)).

(** [try: m except AccessTokenInvalid as e: h e] *)
Definition except_AccessTokenInvalid {A} (m : M A) (h : exn -> M A) : M A :=
  fun env s =>
    match m env s with
    | (Raise (AccessTokenInvalid c t), s') => h (AccessTokenInvalid c t) env s'
    | other => other
    end.

(** [json[k]] on what a call returned: [None] is not subscriptable. *)
Definition subscript (json : option (Py.dict value)) (k : string) : M value :=
  match json with
  | None => raise TypeError
  | Some d =>
      match Py.getitem d k with
      | Some v => ret v
      | None => raise (KeyError k)
      end
  end.

(** [expires_at - now > 60]; a [bool] counts as the [int] 1 or 0. *)
Definition expires_in_more_than_60 (expires_at : value) (now : float)
  : M bool :=
  match expires_at with
  | VInt z =>
      remaining <- lift (int_sub_float z now) ;; ret (more_than_60 remaining)
  | VBool b =>
      remaining <- lift (int_sub_float (if b then 1 else 0) now) ;;
      ret (more_than_60 remaining)
  | _ => raise TypeError
  end.

(** The test at the head of both getters:
    [if not force and cached: now = time.time(); if expires_at - now > 60]. *)
Definition cache_is_fresh (force : bool) (cached expires_at : value)
  : M bool :=
  if negb force && truthy cached then
    now <- time ;;
    expires_in_more_than_60 expires_at now
  else ret false.

(** [n + expires_in] for an [int] n *)
Definition int_add (n : Z) (expires_in : value) : M value :=
  match expires_in with
  | VInt z => ret (VInt (n + z))
  | VBool b => ret (VInt (n + (if b then 1 else 0)))
  | _ => raise TypeError
  end.

(* ================================================================= *)
(** ** ewerobot.check_error and ewerobot.retry_exception *)

Definition check_error (json : Py.dict value) : result (Py.dict value) :=
  match Py.getitem json "errcode" with
  | Some errcode =>
      if negb (py_eq_int errcode 0) then
        if py_eq_int errcode 40001 then
          match Py.getitem json "errmsg" with
          | Some errmsg => Raise (AccessTokenInvalid errcode errmsg)
          | None => Raise (KeyError "errmsg")
          end
        else
          match Py.getitem json "errmsg" with
          | Some errmsg => Raise (ClientException errcode errmsg)
          | None => Raise (KeyError "errmsg")
          end
      else Ok json
  | None => Ok json
  end.

Definition retry_exception (exception : exn) : bool :=
  match exception with
  | AccessTokenInvalid _ _ | ReadTimeout | ConnectTimeout => true
  | _ => false
  end.

(** [retrying.retry(stop_max_attempt_number=n, retry_on_exception=p)]:
    the wrapped function is called again while it raises an exception
    that [p] accepts and fewer than [n] attempts were made; the last
    exception is raised as it is.  No wait is configured. *)
Fixpoint retry_loop {A} (remaining : nat) (retry_on_exception : exn -> bool)
    (fn : M A) : M A :=
  fun env s =>
    match fn env s with
    | (Raise e, s') =>
        if retry_on_exception e then
          match remaining with
          | O => (Raise e, s')
          | S remaining' => retry_loop remaining' retry_on_exception fn env s'
          end
        else (Raise e, s')
    | returned => returned
    end.

Definition retry {A} (stop_max_attempt_number : nat)
    (retry_on_exception : exn -> bool) (fn : M A) : M A :=
  retry_loop (stop_max_attempt_number - 1) retry_on_exception fn.

(* ================================================================= *)
(** ** EClient *)

Definition set_token (v : value) (c : EClient) : EClient :=
  {| _token := v; _jsapi_ticket := _jsapi_ticket c;
     token_expires_at := token_expires_at c;
     jsapi_ticket_expires_at := jsapi_ticket_expires_at c |}.

Definition set_token_expires_at (v : value) (c : EClient) : EClient :=
  {| _token := _token c; _jsapi_ticket := _jsapi_ticket c;
     token_expires_at := v;
     jsapi_ticket_expires_at := jsapi_ticket_expires_at c |}.

Definition set_jsapi_ticket (v : value) (c : EClient) : EClient :=
  {| _token := _token c; _jsapi_ticket := v;
     token_expires_at := token_expires_at c;
     jsapi_ticket_expires_at := jsapi_ticket_expires_at c |}.

Definition set_jsapi_ticket_expires_at (v : value) (c : EClient) : EClient :=
  {| _token := _token c; _jsapi_ticket := _jsapi_ticket c;
     token_expires_at := token_expires_at c;
     jsapi_ticket_expires_at := v |}.

(** The last three statements of [get_access_token]:
    [self._token = json["access_token"]],
    [self.token_expires_at = int(time.time()) + json["expires_in"]],
    [return self._token]. *)
Definition store_access_token (json : option (Py.dict value)) : M value :=
  access_token <- subscript json "access_token" ;;
  set_client (set_token access_token) ;;;
  now <- time ;;
  seconds <- lift (py_int now) ;;
  expires_in <- subscript json "expires_in" ;;
  expires_at <- int_add seconds expires_in ;;
  set_client (set_token_expires_at expires_at) ;;;
  c' <- get_client ;;
  ret (_token c').

(** [EClient.get_access_token] *)
Definition get_access_token (force : bool) : M value :=
  c <- get_client ;;
  cached <- cache_is_fresh force (_token c) (token_expires_at c) ;;
  if cached then ret (_token c)
  else
    json <- grant_token ;;
    store_access_token json.

(** [self.token], the property of werobot's [Client]. *)
Definition token : M value := get_access_token false.

(** Keyword arguments of [request] that the callers of this module pass. *)
Record kwargs : Type := mkKwargs {
  params : option (Py.dict value);
  data : option value;
  timeout : option Z;
  oauth2_access_token : option value
}.

Definition no_kwargs : kwargs :=
  {| params := None; data := None; timeout := None;
     oauth2_access_token := None |}.

(** The first statement of [request]: which [params] go out, and what
    is left of the other keyword arguments. *)
Definition prepare (kw : kwargs) : M kwargs :=
  match params kw with
  | None =>
      tok <- token ;;
      ret {| params := Some [("access_token", tok)]; data := data kw;
             timeout := timeout kw;
             oauth2_access_token := oauth2_access_token kw |}
  | Some p =>
      if Py.contains p "access_token" then
        (* kwargs.pop('oauth2_access_token', False) *)
        let popped := match oauth2_access_token kw with
                      | Some v => v
                      | None => VBool false
                      end in
        if negb (truthy popped) then
          tok <- token ;;
          ret {| params := Some (Py.setitem p "access_token" tok);
                 data := data kw; timeout := timeout kw;
                 oauth2_access_token := None |}
        else
          ret {| params := kw.(params); data := data kw;
                 timeout := timeout kw; oauth2_access_token := None |}
      else ret kw
  end.

(** [requests.request(method=method, url=url, timeout=5, **kwargs)]:
    a [timeout] among the keyword arguments is given twice, and
    [oauth2_access_token] is no parameter of [requests.request]; both
    calls fail with [TypeError] before anything is sent.  A dict in
    [data] goes out serialised by [json.dumps]; the embedding keeps the
    value. *)
Definition send (method url : string) (kw : kwargs) : M (Py.dict value) :=
  match timeout kw, oauth2_access_token kw with
  | None, None =>
      requests_request method url
        (match params kw with Some p => p | None => [] end) (data kw)
  | _, _ => raise TypeError
  end.

(** The statements of [request] up to [json = r.json()]. *)
Definition exchange (method url : string) (kw : kwargs)
  : M (Py.dict value) :=
  kw' <- prepare kw ;;
  send method url kw'.

(** The [try] statement that ends [request]; when [check_error]
    returns an empty body the function falls off its end and returns
    [None]. *)
Definition on_body (json : Py.dict value) : M (option (Py.dict value)) :=
  except_AccessTokenInvalid
    (checked <- lift (check_error json) ;;
     if truthy (VDict checked) then ret (Some json) else ret None)
    (fun e => get_access_token true ;;; raise e).

(** The body of [EClient.request]. *)
Definition request_body (method url : string) (kw : kwargs)
  : M (option (Py.dict value)) :=
  json <- exchange method url kw ;;
  on_body json.

(** One attempt: the decorator calls the function, which the trace
    records. *)
Definition attempt (method url : string) (kw : kwargs)
  : M (option (Py.dict value)) :=
  log EvCall ;;; request_body method url kw.

(** [EClient.request], under
    [@retry(stop_max_attempt_number=3, retry_on_exception=retry_exception)]. *)
Definition request (method url : string) (kw : kwargs)
  : M (option (Py.dict value)) :=
  retry 3 retry_exception (attempt method url kw).

(** [self.get] and [self.post] of werobot's [Client] hand their keyword
    arguments to [self.request]. *)
Definition get (url : string) (kw : kwargs) := request "get" url kw.
Definition post (url : string) (kw : kwargs) := request "post" url kw.

(** [EClient.jsapi_ticket] *)
Definition jsapi_ticket : M (option (Py.dict value)) :=
  tok <- token ;;
  get "https://api.weixin.qq.com/cgi-bin/ticket/getticket"
    {| params := Some [("type", VStr "jsapi"); ("access_token", tok)];
       data := None; timeout := None; oauth2_access_token := None |}.

(** The last three statements of [get_jsapi_ticket]:
    [self._jsapi_ticket = json["ticket"]],
    [self.jsapi_ticket_expires_at = int(time.time()) + json["expires_in"]],
    [return self._token]. *)
Definition store_jsapi_ticket (json : option (Py.dict value)) : M value :=
  ticket <- subscript json "ticket" ;;
  set_client (set_jsapi_ticket ticket) ;;;
  now <- time ;;
  seconds <- lift (py_int now) ;;
  expires_in <- subscript json "expires_in" ;;
  expires_at <- int_add seconds expires_in ;;
  set_client (set_jsapi_ticket_expires_at expires_at) ;;;
  c' <- get_client ;;
  ret (_token c').

(** [EClient.get_jsapi_ticket] *)
Definition get_jsapi_ticket (force : bool) : M value :=
  c <- get_client ;;
  cached <-
    cache_is_fresh force (_jsapi_ticket c) (jsapi_ticket_expires_at c) ;;
  if cached then ret (_jsapi_ticket c)
  else
    json <- jsapi_ticket ;;
    store_jsapi_ticket json.

(** [EClient.send_all_text_message] *)
Definition send_all_text_message (content : string)
  : M (option (Py.dict value)) :=
  if (List.length (Py.encode_utf8 content) <? 2048)%nat then
    now <- time ;;
    clientmsgid <- lift (py_int (float_mul_1000 now)) ;;
    post "https://api.weixin.qq.com/cgi-bin/message/mass/sendall"
      {| params := None;
         data := Some (VDict
                   [("filter", VDict [("is_to_all", VBool true)]);
                    ("text", VDict [("content", VStr content)]);
                    ("msgtype", VStr "text");
                    ("clientmsgid", VInt clientmsgid)]);
         timeout := Some 10%Z;
         oauth2_access_token := None |}
  else raise AssertionError.

(** Two mappings with the same entries once the names are lower-cased. *)
Definition params_B_a : Py.dict string := [("B", "1"); ("a", "2")].
Definition params_b_a : Py.dict string := [("b", "1"); ("a", "2")].

(** The error envelope of the platform: a body that reports a non-zero
    [errcode] also carries an [errmsg]. *)
Definition envelope (json : Py.dict value) : Prop :=
  forall errcode, Py.getitem json "errcode" = Some errcode ->
    py_eq_int errcode 0 = false -> Py.getitem json "errmsg" <> None.

(** [json["errcode"] == n] *)
Definition errcode_is (json : Py.dict value) (n : Z) : Prop :=
  exists errcode,
    Py.getitem json "errcode" = Some errcode /\ py_eq_int errcode n = true.

Definition body_40001_without_errmsg : Py.dict value :=
  [("errcode", VInt 40001)].

Definition body_invalid_credential : Py.dict value :=
  [("errcode", VInt 40001); ("errmsg", VStr "invalid credential")].

(** A world in which the clock stands still and every call is answered
    the same way. *)
Definition constant_env (now : Z * Z)
    (grant : result (option (Py.dict value)))
    (http : result (Py.dict value)) : Env :=
  {| clock := fun _ => now;
     grant_token_reply := fun _ => grant;
     grant_token_leaves := fun _ fields => fields;
     http_reply := fun _ => http |}.

(** A whole number of seconds on the clock. *)
Definition seconds (n : Z) : Z * Z := (n, 0%Z).

(** A client that holds an access token and no ticket. *)
Definition client_with_token (tok : string) (expires_at : Z) : EClient :=
  {| _token := VStr tok; _jsapi_ticket := VNone;
     token_expires_at := VInt expires_at;
     jsapi_ticket_expires_at := VNone |}.

Definition token_body (tok : string) (expires_in : Z) : Py.dict value :=
  [("access_token", VStr tok); ("expires_in", VInt expires_in)].

Definition ticket_body (ticket : string) (expires_in : Z) : Py.dict value :=
  [("errcode", VInt 0); ("errmsg", VStr "ok"); ("ticket", VStr ticket);
   ("expires_in", VInt expires_in)].

(** The clock reads 1000; the token endpoint answers with the token
    [NEW], every other call with the ticket [TICKET]. *)
Definition world_1000 : Env :=
  constant_env (seconds 1000) (Ok (Some (token_body "NEW" 7200)))
    (Ok (ticket_body "TICKET" 7200)).

(** The token [OLD] in the cache, good for 120 and for 30 more seconds. *)
Definition cache_120 : State := initial (client_with_token "OLD" 1120).
Definition cache_30 : State := initial (client_with_token "OLD" 1030).

(** A computation keeps a relation [P] between the client it starts
    from and the client it ends with, whatever the world answers. *)
Definition preserves {A} (R : State -> State -> Prop) (m : M A) : Prop :=
  forall env s, R s (snd (m env s)).

(** The two fields of the ticket are those of [s]. *)
Definition same_ticket (s s' : State) : Prop :=
  _jsapi_ticket (client s') = _jsapi_ticket (client s)
  /\ jsapi_ticket_expires_at (client s')
     = jsapi_ticket_expires_at (client s).

(** The attempts of [request] made so far. *)
Definition is_call (ev : event) : bool :=
  match ev with EvCall => true | _ => false end.

Definition attempts (s : State) : nat :=
  List.length (filter is_call (trace s)).

(** [n] attempts in a row, each ending in an error that is retried. *)
Inductive failed_attempts {A} (env : Env) (fn : M A)
  : nat -> State -> State -> Prop :=
| failed_none s : failed_attempts env fn 0 s s
| failed_more n s e s1 s2 :
    fn env s = (Raise e, s1) -> retry_exception e = true ->
    failed_attempts env fn n s1 s2 ->
    failed_attempts env fn (S n) s s2.

(** Every HTTP call runs into a read timeout. *)
Definition world_timeout : Env :=
  constant_env (seconds 1000) (Ok (Some (token_body "NEW" 7200)))
    (Raise ReadTimeout).

(** The platform answers every HTTP call with the empty object. *)
Definition world_empty_body : Env :=
  constant_env (seconds 1000) (Ok (Some (token_body "NEW" 7200))) (Ok []).

(** A text of [n] bytes. *)
Definition text_of_length (n : nat) : string :=
  string_of_list_ascii (repeat "a"%char n).

(** *** Which credential an attempt sends

    What the last response obliges the next attempt to: nothing; a
    refresh that is still to come, after a response that classified as
    an invalid credential; or to send the token that a fetch has
    returned since. *)
Inductive obligation : Type :=
| Nothing
| Pending
| Fresh (tok : value).

(** The response body classifies as an invalid credential. *)
Definition invalid (r : result (Py.dict value)) : bool :=
  match r with
  | Ok json =>
      match check_error json with
      | Raise (AccessTokenInvalid _ _) => true
      | _ => false
      end
  | Raise _ => false
  end.

(** The token that a call of [grant_token] brought, if it brought one. *)
Definition fetched (r : result (option (Py.dict value))) : option value :=
  match r with
  | Ok (Some d) => Py.getitem d "access_token"
  | _ => None
  end.

(** A fetch that brings a token discharges a pending refresh: from then
    on that token is the one to send.  A fetch that brings none leaves
    the obligation as it is when [strict]; otherwise the obligation
    lapses with it. *)
Definition after_grant (strict : bool) (ob : obligation)
    (r : result (option (Py.dict value))) : obligation :=
  match ob, fetched r with
  | Nothing, _ => Nothing
  | _, Some tok => Fresh tok
  | _, None => if strict then ob else Nothing
  end.

Definition after_http (r : result (Py.dict value)) : obligation :=
  if invalid r then Pending else Nothing.

(** The [params] of an HTTP call meet the obligation. *)
Definition allowed (ob : obligation) (p : Py.dict value) : Prop :=
  match ob with
  | Nothing => True
  | Pending => False
  | Fresh tok => Py.getitem p "access_token" = Some tok
  end.

(** No attempt of the trace begins while a refresh is pending, and
    every HTTP call that follows a response classified as an invalid
    credential carries a token fetched after that response. *)
Fixpoint refreshed (strict : bool) (ob : obligation) (tr : list event)
  : Prop :=
  match tr with
  | [] => True
  | EvCall :: tr' => ob <> Pending /\ refreshed strict ob tr'
  | EvGrant r :: tr' => refreshed strict (after_grant strict ob r) tr'
  | EvHttp _ _ p _ r :: tr' =>
      allowed ob p /\ refreshed strict (after_http r) tr'
  end.

(** The obligation at the end of a trace. *)
Fixpoint final (strict : bool) (ob : obligation) (tr : list event)
  : obligation :=
  match tr with
  | [] => ob
  | EvCall :: tr' => final strict ob tr'
  | EvGrant r :: tr' => final strict (after_grant strict ob r) tr'
  | EvHttp _ _ _ _ r :: tr' => final strict (after_http r) tr'
  end.

(** Between two attempts no refresh is pending, and a fresh token is
    the one in the cache. *)
Definition settled (ob : obligation) (s : State) : Prop :=
  match ob with
  | Nothing => True
  | Pending => False
  | Fresh tok => _token (client s) = tok
  end.

(** [request] puts the access token of the client into the call: the
    caller gave no [params], or [params] with an [access_token] and no
    true [oauth2_access_token]. *)
Definition carries_client_token (kw : kwargs) : bool :=
  match params kw with
  | None => true
  | Some p =>
      Py.contains p "access_token"
      && negb (truthy (match oauth2_access_token kw with
                       | Some v => v
                       | None => VBool false
                       end))
  end.

(** [m] extends the trace by events that meet the obligation [ob] it
    starts under, given [pre], and establishes [post] for the obligation
    it ends under. *)
Definition tracks {A} (m : M A) (pre : obligation -> State -> Prop)
    (post : obligation -> State -> result A -> Prop) : Prop :=
  forall env s ob, pre ob s ->
    exists tr,
      trace (snd (m env s)) = trace s ++ tr
      /\ refreshed false ob tr
      /\ post (final false ob tr) (snd (m env s)) (fst (m env s)).

(** The first response says that the credential is invalid, the fetch
    that follows runs into a timeout, the second response is a ticket. *)
Definition world_refetch_fails : Env :=
  {| clock := fun _ => seconds 1000;
     grant_token_reply := fun _ => Raise ReadTimeout;
     grant_token_leaves := fun _ fields => fields;
     http_reply := fun n =>
       match n with
       | O => Ok body_invalid_credential
       | S _ => Ok (ticket_body "TICKET" 7200)
       end |}.

(** The runs that the properties below evaluate. *)
Definition stale_run : result (option (Py.dict value)) * State :=
  request "get" "/" no_kwargs world_refetch_fails cache_120.

Definition ticket_run : result value * State :=
  get_jsapi_ticket false world_1000 cache_120.

(** The token endpoint times out and every other call fails in
    transport. *)
Definition world_down : Env :=
  constant_env (seconds 1000) (Raise ReadTimeout) (Raise RequestException).

(** The first response says that the credential is invalid, the fetch
    that follows brings the token [NEW], the second response is a
    ticket. *)
Definition world_refresh : Env :=
  {| clock := fun _ => seconds 1000;
     grant_token_reply := fun _ => Ok (Some (token_body "NEW" 7200));
     grant_token_leaves := fun _ fields => fields;
     http_reply := fun n =>
       match n with
       | O => Ok body_invalid_credential
       | S _ => Ok (ticket_body "TICKET" 7200)
       end |}.

Definition refreshed_run : result (option (Py.dict value)) * State :=
  request "get" "/" no_kwargs world_refresh cache_120.

(* ================================================================= *)
(** ** util.get_random_string *)

(** [string.ascii_letters] and [string.digits] *)
Definition ascii_letters : string :=
  "abcdefghijklmnopqrstuvwxyzABCDEFGHIJKLMNOPQRSTUVWXYZ".
Definition digits_chars : string := "0123456789".

(** [random.choice(seq)] picks one element of a sequence that is not
    empty; [draw] is the position it picks, counted around the
    sequence. *)
Definition choice (seq : list ascii) (draw : nat) : ascii :=
  nth (draw mod List.length seq) seq "000"%char.

(** The loop [for i in range(length): random_str += random.choice(...)],
    [n] rounds from round [i] on. *)
Fixpoint random_chars (seq : list ascii) (draws : nat -> nat) (i n : nat)
  : string :=
  match n with
  | O => EmptyString
  | S n' => String (choice seq (draws i)) (random_chars seq draws (S i) n')
  end.

(** [get_random_string(length, digits)]; [draws i] is what the i-th call
    of [random.choice] picks.  [range(length)] is empty for a length
    that is not positive. *)
Definition get_random_string (length : Z) (digits : bool)
    (draws : nat -> nat) : string :=
  let random_list :=
    if digits then (ascii_letters ++ digits_chars)%string
    else ascii_letters in
  random_chars (list_ascii_of_string random_list) draws 0 (Z.to_nat length).

(* ================================================================= *)
(** ** The calls of the platform that [EClient] adds *)

(** [str(v)], as ['%s' % v] writes a value.  The text of a list or of a
    dict is left to [repr]. *)
Definition py_str (repr : value -> string) (v : value) : string :=
  match v with
  | VNone => "None"
  | VBool true => "True"
  | VBool false => "False"
  | VInt z => DecimalString.NilZero.string_of_int (Z.to_int z)
  | VStr s => s
  | VList _ | VDict _ => repr v
  end.

(** [get_signature] on a dict of values: ['%s'] writes each one with
    [str]. *)
Definition get_signature_of (repr : value -> string)
    (sign_param : Py.dict value) : string :=
  get_signature (map (fun e => (fst e, py_str repr (snd e))) sign_param).

(** [EClient.get_jssdk_config]; [appid] is [self.appid], the [APP_ID] of
    the configuration. *)
Definition get_jssdk_config (repr : value -> string) (appid : value)
    (draws : nat -> nat) (url : string) : M (Py.dict value) :=
  jsapi_ticket <- get_jsapi_ticket false ;;
  let noncestr := get_random_string 15 true draws in
  now <- time ;;
  timestamp <- lift (py_int now) ;;
  let sign_param :=
    [("noncestr", VStr noncestr); ("jsapi_ticket", jsapi_ticket);
     ("timestamp", VInt timestamp); ("url", VStr url)] in
  ret [("appId", appid);
       ("signature", VStr (get_signature_of repr sign_param));
       ("timestamp", VInt timestamp);
       ("nonceStr", VStr noncestr)].

(** [EClient.get_oauth2_access_token_by_code]; [appid] and [appsecret]
    are [self.appid] and [self.appsecret]. *)
Definition get_oauth2_access_token_by_code (appid appsecret code : value)
  : M (option (Py.dict value)) :=
  get "https://api.weixin.qq.com/sns/oauth2/access_token"
    {| params := Some [("appid", appid); ("secret", appsecret);
                       ("code", code);
                       ("grant_type", VStr "authorization_code")];
       data := None; timeout := None; oauth2_access_token := None |}.

(** [EClient.get_sns_user_info] *)
Definition get_sns_user_info (oauth2_token openid lang : value)
  : M (option (Py.dict value)) :=
  get "https://api.weixin.qq.com/sns/userinfo"
    {| params := Some [("access_token", oauth2_token); ("openid", openid);
                       ("lang", lang)];
       data := None; timeout := None;
       oauth2_access_token := Some (VBool true) |}.

(** The template message calls. *)
Definition set_industry (industry_id1 industry_id2 : value)
  : M (option (Py.dict value)) :=
  post "https://api.weixin.qq.com/cgi-bin/template/api_set_industry"
    {| params := None;
       data := Some (VDict [("industry_id1", industry_id1);
                            ("industry_id2", industry_id2)]);
       timeout := None; oauth2_access_token := None |}.

Definition get_industry : M (option (Py.dict value)) :=
  get "https://api.weixin.qq.com/cgi-bin/template/get_industry" no_kwargs.

Definition api_add_template (template_id_short : value)
  : M (option (Py.dict value)) :=
  post "https://api.weixin.qq.com/cgi-bin/template/api_add_template"
    {| params := None;
       data := Some (VDict [("template_id_short", template_id_short)]);
       timeout := None; oauth2_access_token := None |}.

Definition get_all_private_template : M (option (Py.dict value)) :=
  get "https://api.weixin.qq.com/cgi-bin/template/get_all_private_template"
    no_kwargs.

Definition del_private_template (template_id : value)
  : M (option (Py.dict value)) :=
  post "https://api.weixin.qq.com/cgi-bin/template/del_private_template"
    {| params := None;
       data := Some (VDict [("template_id", template_id)]);
       timeout := None; oauth2_access_token := None |}.

(** A digit of a lower-case hexadecimal number. *)
Definition is_lower_hex (c : ascii) : bool :=
  existsb (Ascii.eqb c) (list_ascii_of_string "0123456789abcdef").

(** The same two entries, written with capitals in one order and in
    lower case in the other. *)
Definition params_capitals : Py.dict string :=
  [("Noncestr", "abc"); ("Url", "http://x")].
Definition params_lower_case : Py.dict string :=
  [("url", "http://x"); ("noncestr", "abc")].

(** A value that is neither an [int] nor a [bool]. *)
Definition not_a_number (v : value) : Prop :=
  match v with
  | VInt _ | VBool _ => False
  | _ => True
  end.

Definition body_errcode_string_zero : Py.dict value :=
  [("errcode", VStr "0"); ("errmsg", VStr "ok")].

(** A token response that lacks [expires_in]. *)
Definition token_body_without_expiry (tok : string) : Py.dict value :=
  [("access_token", VStr tok)].

Definition world_without_expiry : Env :=
  constant_env (seconds 1000) (Ok (Some (token_body_without_expiry "NEW")))
    (Ok (ticket_body "TICKET" 7200)).



(** The clock reads [1 - 2^-53], the last double below 1. *)
Definition world_epoch : Env :=
  constant_env (2 ^ 53 - 1, -53)%Z (Ok (Some (token_body "NEW" 7200)))
    (Ok (ticket_body "TICKET" 7200)).

(** The token [OLD] in the cache, to expire at 61. *)
Definition cache_61 : State := initial (client_with_token "OLD" 61).

(** The token endpoint answers with the token [NEW]; every other call
    fails in transport. *)
Definition world_http_down : Env :=
  constant_env (seconds 1000) (Ok (Some (token_body "NEW" 7200)))
    (Raise RequestException).

(** What a getter does once its cache has not answered, in the state
    [s0] that the test of the cache left.  [fetch] is the call it makes,
    [key] the field of the body that holds the value, [value_of] and
    [expiry_of] the two fields of the client it writes.
    - The fetch raises: the getter raises the same error and ends in
      the state that the fetch left.
    - The fetch returns [None] or a body without the value: the getter
      raises in the state that the fetch left.
    - The fetch returns a body with the value: the value is stored;
      if the getter raises, the expiry is the one the fetch left; it does
      raise when [expires_in] is absent or not a number; with an integer
      [expires_in] and a clock that [int] accepts, the getter returns
      [self._token] and the expiry is the time in whole seconds plus
      [expires_in]. *)
Definition writes_after_fetch (getter : M value)
    (fetch : M (option (Py.dict value))) (key : string)
    (value_of expiry_of : EClient -> value)
    (env : Env) (s s0 : State) : Prop :=
  (forall e s1, fetch env s0 = (Raise e, s1) -> getter env s = (Raise e, s1))
  /\ (forall s1,
        fetch env s0 = (Ok None, s1) -> getter env s = (Raise TypeError, s1))
  /\ (forall d s1,
        fetch env s0 = (Ok (Some d), s1) -> Py.getitem d key = None ->
        getter env s = (Raise (KeyError key), s1))
  /\ (forall d v s1,
        fetch env s0 = (Ok (Some d), s1) -> Py.getitem d key = Some v ->
        let r := getter env s in
        value_of (client (snd r)) = v
        /\ (forall e, fst r = Raise e ->
              expiry_of (client (snd r)) = expiry_of (client s1))
        /\ (Py.getitem d "expires_in" = None -> exists e, fst r = Raise e)
        /\ (forall x, Py.getitem d "expires_in" = Some x -> not_a_number x ->
              exists e, fst r = Raise e)
        /\ (forall expires_in seconds,
              Py.getitem d "expires_in" = Some (VInt expires_in) ->
              py_int (time_time env (clock_reads s1)) = Ok seconds ->
              fst r = Ok (_token (client (snd r)))
              /\ expiry_of (client (snd r)) = VInt (seconds + expires_in))).

(** The token endpoint first says that the credential is invalid, the
    handler inside [grant_token] stores the token [INNER], and the call
    ends in a read timeout. *)
Definition world_inner_refresh : Env :=
  {| clock := fun _ => seconds 1000;
     grant_token_reply := fun _ => Raise ReadTimeout;
     grant_token_leaves := fun _ _ => (VStr "INNER", VInt 8200);
     http_reply := fun _ => Raise RequestException |}.

(** The first response says that the credential is invalid, and the
    fetch that follows fails in transport. *)
Definition world_refetch_breaks : Env :=
  {| clock := fun _ => seconds 1000;
     grant_token_reply := fun _ => Raise RequestException;
     grant_token_leaves := fun _ fields => fields;
     http_reply := fun n =>
       match n with
       | O => Ok body_invalid_credential
       | S _ => Ok (ticket_body "TICKET" 7200)
       end |}.

(** The clock reads [0.5] and then [1 - 2^-53]; the token endpoint
    answers with a token that is good for 61 seconds. *)
Definition world_half_second : Env :=
  {| clock := fun n =>
       match n with
       | O => (1, -1)%Z
       | S _ => (2 ^ 53 - 1, -53)%Z
       end;
     grant_token_reply := fun _ => Ok (Some (token_body "NEW" 61));
     grant_token_leaves := fun _ fields => fields;
     http_reply := fun _ => Ok (ticket_body "TICKET" 7200) |}.

(* ================================================================= *)
(** * Properties *)

(** ** hashlib.sha1: the test vectors of FIPS 180 *)

Example sha1_abc :
  SHA1.sha1_hex "abc" = "a9993e364706816aba3e25717850c26c9cd0d89d".
Proof. vm_compute. reflexivity. Qed.

Example sha1_empty :
  SHA1.sha1_hex "" = "da39a3ee5e6b4b0d3255bfef95601890afd80709".
Proof. vm_compute. reflexivity. Qed.

Example sha1_two_blocks :
  SHA1.sha1_hex "abcdbcdecdefdefgefghfghighijhijkijkljklmklmnlmnomnopnopq"
  = "84983e441c3bd26ebaae4aa1f95129e5e54670f1".
Proof. vm_compute. reflexivity. Qed.

(* ================================================================= *)
(** ** get_signature *)

Section Signature.

Lemma In_insert (x y : string) (l : list string) :
  In y (Py.insert x l) <-> y = x \/ In y l.
Proof.
  induction l as [|z l IH]; simpl.
  - intuition.
  - destruct (Py.str_le x z); simpl; intuition.
Qed.

Lemma In_sorted (y : string) (l : list string) :
  In y (Py.sorted l) <-> In y l.
Proof.
  induction l as [|x l IH]; simpl; [tauto|].
  rewrite In_insert, IH. intuition.
Qed.

Lemma insert_entry_map (g f : string -> string) (x : string) (l : list string) :
  (forall y, In y l -> Py.str_le (g x) (g y) = Py.str_le x y) ->
  insert_entry (g x, f x) (map (fun k => (g k, f k)) l)
  = map (fun k => (g k, f k)) (Py.insert x l).
Proof.
  induction l as [|y l IH]; intros Hm; simpl; [reflexivity|].
  rewrite (Hm y (or_introl eq_refl)).
  destruct (Py.str_le x y); simpl; [reflexivity|].
  rewrite IH; [reflexivity|]. intros z Hz. apply Hm. now right.
Qed.

Lemma sort_entries_map (g f : string -> string) (ks : list string) :
  (forall x y, In x ks -> In y ks -> Py.str_le (g x) (g y) = Py.str_le x y) ->
  sort_entries (map (fun k => (g k, f k)) ks)
  = map (fun k => (g k, f k)) (Py.sorted ks).
Proof.
  induction ks as [|x ks IH]; intros Hm; simpl; [reflexivity|].
  rewrite IH by (intros; apply Hm; now right).
  apply insert_entry_map. intros y Hy. apply Hm; [now left|].
  right. now apply In_sorted.
Qed.

Lemma getitem_not_in {V} (m : Py.dict V) (k : string) :
  ~ In k (Py.keys m) -> Py.getitem m k = None.
Proof.
  induction m as [|[k' v] m IH]; simpl; intros Hn; [reflexivity|].
  destruct (String.eqb_spec k k') as [->|Hne]; [exfalso; auto|].
  apply IH. tauto.
Qed.

Lemma lower_names_by_key (m : Py.dict string) :
  Py.well_formed m ->
  lower_names m = map (fun k => (Py.lower k, value_of m k)) (Py.keys m).
Proof.
  unfold Py.well_formed, lower_names, Py.keys, value_of.
  induction m as [|[k v] m IH]; simpl; intros Hnd; [reflexivity|].
  inversion Hnd as [|? ? Hk Hnd']; subst.
  rewrite String.eqb_refl. f_equal.
  rewrite IH by assumption.
  apply map_ext_in. intros k' Hk'.
  destruct (String.eqb_spec k' k) as [->|Hne]; [contradiction|reflexivity].
Qed.

Lemma get_signature_refines_spec (m : Py.dict string) :
  Py.well_formed m -> lower_keeps_order m -> get_signature m = spec_sign m.
Proof.
  intros Hwf Hord. unfold get_signature, spec_sign, signature_string.
  rewrite (lower_names_by_key m Hwf).
  rewrite (sort_entries_map Py.lower (value_of m) (Py.keys m) Hord).
  rewrite map_map. reflexivity.
Qed.

End Signature.

(** *** The order of insertion does not matter *)

Lemma str_le_trans a b c :
  Py.str_le a b = true -> Py.str_le b c = true -> Py.str_le a c = true.
Proof.
  unfold Py.str_le, String.leb.
  revert b c. induction a as [|x a IH]; intros [|y b] [|z c]; simpl;
    try congruence; auto.
  unfold Ascii.compare.
  destruct (N.compare_spec (N_of_ascii x) (N_of_ascii y)) as [Hxy|Hxy|Hxy];
    destruct (N.compare_spec (N_of_ascii y) (N_of_ascii z)) as [Hyz|Hyz|Hyz];
    destruct (N.compare_spec (N_of_ascii x) (N_of_ascii z)) as [Hxz|Hxz|Hxz];
    try congruence; try lia; auto.
  apply IH.
Qed.

Lemma insert_permutation x l : Permutation (x :: l) (Py.insert x l).
Proof.
  induction l as [|y l IH]; simpl; [reflexivity|].
  destruct (Py.str_le x y); [reflexivity|].
  rewrite perm_swap. now apply perm_skip.
Qed.

Lemma sorted_permutation l : Permutation l (Py.sorted l).
Proof.
  induction l as [|x l IH]; simpl; [reflexivity|].
  rewrite <- insert_permutation. now apply perm_skip.
Qed.

Lemma insert_sorted x l :
  StronglySorted (fun a b => Py.str_le a b = true) l ->
  StronglySorted (fun a b => Py.str_le a b = true) (Py.insert x l).
Proof.
  induction 1 as [|y l Hs IH Hall]; simpl.
  - repeat constructor.
  - destruct (Py.str_le x y) eqn:Hxy.
    + constructor; [now constructor|]. constructor; [exact Hxy|].
      eapply Forall_impl; [|exact Hall].
      intros z Hz. eapply str_le_trans; eauto.
    + constructor; [exact IH|].
      apply Forall_forall. intros z Hz. apply In_insert in Hz.
      destruct Hz as [->|Hz].
      * destruct (String.leb_total x y) as [H|H]; [|exact H].
        unfold Py.str_le in Hxy. congruence.
      * rewrite Forall_forall in Hall. now apply Hall.
Qed.

Lemma sorted_sorted l :
  StronglySorted (fun a b => Py.str_le a b = true) (Py.sorted l).
Proof.
  induction l as [|x l IH]; simpl; [constructor|]. now apply insert_sorted.
Qed.

Lemma sorted_unique l1 l2 :
  StronglySorted (fun a b => Py.str_le a b = true) l1 ->
  StronglySorted (fun a b => Py.str_le a b = true) l2 ->
  Permutation l1 l2 -> l1 = l2.
Proof.
  intros H1. revert l2. induction H1 as [|x l1 Hs1 IH Hall1]; intros l2 H2 Hp.
  - apply Permutation_nil in Hp. now subst.
  - destruct H2 as [|y l2 Hs2 Hall2].
    + apply Permutation_sym, Permutation_nil in Hp. discriminate.
    + assert (Hxy : x = y).
      { rewrite Forall_forall in Hall1, Hall2.
        assert (Hx : In x (y :: l2))
          by (eapply Permutation_in; [exact Hp|now left]).
        assert (Hy : In y (x :: l1))
          by (eapply Permutation_in; [symmetry; exact Hp|now left]).
        destruct Hx as [Hx|Hx]; [now subst|].
        destruct Hy as [Hy|Hy]; [now subst|].
        apply String.leb_antisym; [now apply Hall1|now apply Hall2]. }
      subst y. f_equal. apply IH; [exact Hs2|].
      eapply Permutation_cons_inv; exact Hp.
Qed.

Lemma sorted_of_permutation l1 l2 :
  Permutation l1 l2 -> Py.sorted l1 = Py.sorted l2.
Proof.
  intros Hp. apply sorted_unique; try apply sorted_sorted.
  rewrite <- !sorted_permutation. exact Hp.
Qed.

Lemma getitem_In {V} (m : Py.dict V) k v :
  Py.well_formed m -> (Py.getitem m k = Some v <-> In (k, v) m).
Proof.
  unfold Py.well_formed, Py.keys.
  induction m as [|[k' v'] m IH]; simpl; intros Hnd.
  - split; [discriminate|contradiction].
  - inversion Hnd as [|? ? Hk Hnd']; subst.
    destruct (String.eqb_spec k k') as [->|Hne].
    + split.
      * intros H. inversion H. now left.
      * intros [H|H]; [now inversion H|].
        exfalso. apply Hk. apply in_map_iff. now exists (k', v).
    + rewrite (IH Hnd'). split; [now right|].
      intros [H|H]; [inversion H; congruence|exact H].
Qed.

Lemma value_of_permutation (m1 m2 : Py.dict string) k :
  Py.well_formed m1 -> Permutation m1 m2 -> value_of m1 k = value_of m2 k.
Proof.
  intros Hwf Hp.
  assert (Hwf2 : Py.well_formed m2).
  { unfold Py.well_formed, Py.keys in *.
    eapply Permutation_NoDup; [|exact Hwf]. now apply Permutation_map. }
  unfold value_of.
  destruct (Py.getitem m1 k) as [v|] eqn:E1.
  - apply (getitem_In m1 k v Hwf) in E1.
    assert (E2 : Py.getitem m2 k = Some v).
    { apply (getitem_In m2 k v Hwf2). eapply Permutation_in; eauto. }
    now rewrite E2.
  - destruct (Py.getitem m2 k) as [v|] eqn:E2; [|reflexivity].
    apply (getitem_In m2 k v Hwf2) in E2.
    assert (E1' : Py.getitem m1 k = Some v).
    { apply (getitem_In m1 k v Hwf). eapply Permutation_in;
        [symmetry; exact Hp|exact E2]. }
    congruence.
Qed.

(** The part of C1 that the code keeps: the same entries, inserted in
    any order, sign to the same digest. *)
Lemma get_signature_insertion_order (m1 m2 : Py.dict string) :
  Py.well_formed m1 -> Permutation m1 m2 ->
  get_signature m1 = get_signature m2.
Proof.
  intros Hwf Hp. unfold get_signature, signature_string. do 2 f_equal.
  rewrite (sorted_of_permutation (Py.keys m1) (Py.keys m2))
    by (unfold Py.keys; now apply Permutation_map).
  apply map_ext. intros k. f_equal. now apply value_of_permutation.
Qed.

(** C1.  Two mappings that are equal once their names are
    lower-cased must sign to the same digest.  [get_signature] sorts the
    names before it lower-cases them: ["B"] sorts before ["a"], so
    [{"B": "1", "a": "2"}] is signed as [b=1&a=2] and
    [{"b": "1", "a": "2"}] as [a=2&b=1], and the digests differ. *)
Theorem get_signature_key_case_changes_digest :
  lower_names params_B_a = lower_names params_b_a
  /\ signature_string params_B_a = "b=1&a=2"
  /\ signature_string params_b_a = "a=2&b=1"
  /\ get_signature params_B_a = "7bbb52d2e9f531974cf5e533103e7d7496b0b553"
  /\ get_signature params_b_a = "3c4cc30570b610f0add0d993c0788f9d064d373d"
  /\ get_signature params_B_a <> get_signature params_b_a.
Proof.
  repeat split; try (vm_compute; reflexivity).
  vm_compute. discriminate.
Qed.

(** C2, as the design document states it, fails on its worked example:
    lower-casing ["JsapiTicket"] gives ["jsapiticket"], without an
    underscore. *)
Lemma get_signature_example_has_no_underscore :
  get_signature example_params
  <> SHA1.sha1_hex "jsapi_ticket=t&noncestr=abc&timestamp=1&url=http://x".
Proof. vm_compute. discriminate. Qed.

(** C2.  For a mapping whose names compare the same before
    and after lower-casing (every mapping with lower-case names is one),
    [get_signature] is the rule of the design document: names
    lower-cased, entries in byte order of the names, joined as
    [name=value] with [&], nothing escaped, and the SHA-1 of the UTF-8
    bytes in lower-case hexadecimal.  The worked example signs to the
    digest of [jsapiticket=t&noncestr=abc&timestamp=1&url=http://x]. *)
Theorem get_signature_algorithm (m : Py.dict string) :
  Py.well_formed m -> lower_keeps_order m ->
  get_signature m = spec_sign m
  /\ get_signature example_params
     = SHA1.sha1_hex "jsapiticket=t&noncestr=abc&timestamp=1&url=http://x".
Proof.
  intros Hwf Hord. split.
  - now apply get_signature_refines_spec.
  - vm_compute. reflexivity.
Qed.

Lemma get_signature_algorithm_witness :
  Py.well_formed example_params /\ lower_keeps_order example_params
  /\ get_signature example_params = spec_sign example_params
  /\ get_signature example_params
     = SHA1.sha1_hex "jsapiticket=t&noncestr=abc&timestamp=1&url=http://x".
Proof.
  assert (Hwf : Py.well_formed example_params).
  { unfold Py.well_formed, example_params; simpl.
    repeat constructor; simpl; intuition discriminate. }
  assert (Hord : lower_keeps_order example_params).
  { intros k1 k2 H1 H2. simpl in H1, H2.
    repeat (destruct H1 as [<-|H1]; [|]); try contradiction;
      repeat (destruct H2 as [<-|H2]; [|]); try contradiction;
      reflexivity. }
  split; [exact Hwf|]. split; [exact Hord|].
  exact (get_signature_algorithm example_params Hwf Hord).
Defined.

(* ================================================================= *)
(** ** check_error *)

(** Splits a classification into its cases and closes those that
    compare two different constructors. *)
Ltac classify :=
  repeat match goal with
         | |- _ <-> _ => split
         | |- _ /\ _ => split
         | |- forall _, _ => intro
         | H : _ /\ _ |- _ => destruct H
         | H : exists _, _ |- _ => destruct H
         | H : Some _ = Some _ |- _ => inversion H; subst; clear H
         | H : Raise _ = Raise _ |- _ => inversion H; subst; clear H
         | H : Ok _ = Raise _ |- _ => discriminate H
         | H : None = Some _ |- _ => discriminate H
         | H : _ \/ _ |- _ => destruct H
         end;
  try congruence; eauto.

(** C6, as stated for every decoded body, fails on a body that has the
    code 40001 and no [errmsg]: formatting the message raises
    [KeyError], not [AccessTokenInvalid]. *)
Lemma check_error_40001_without_errmsg :
  errcode_is body_40001_without_errmsg 40001
  /\ check_error body_40001_without_errmsg = Raise (KeyError "errmsg")
  /\ forall c m,
       check_error body_40001_without_errmsg <> Raise (AccessTokenInvalid c m).
Proof.
  split; [exists (VInt 40001); split; reflexivity|].
  split; [reflexivity|]. intros c m. vm_compute. discriminate.
Qed.

(** C6.  For every decoded body that carries an [errmsg]
    whenever its [errcode] is non-zero: [check_error] returns the body
    exactly when [errcode] is absent or equal to 0, raises
    [AccessTokenInvalid] exactly when [errcode] equals 40001, raises
    [ClientException] exactly for every other non-zero [errcode], the
    exception carrying the code and the message of the body; it raises
    nothing else. *)
Theorem check_error_classification (json : Py.dict value) :
  envelope json ->
  (check_error json = Ok json
     <-> Py.getitem json "errcode" = None \/ errcode_is json 0)
  /\ (forall c m, check_error json = Raise (AccessTokenInvalid c m)
        <-> Py.getitem json "errcode" = Some c /\ py_eq_int c 40001 = true
            /\ Py.getitem json "errmsg" = Some m)
  /\ (forall c m, check_error json = Raise (ClientException c m)
        <-> Py.getitem json "errcode" = Some c /\ py_eq_int c 0 = false
            /\ py_eq_int c 40001 = false
            /\ Py.getitem json "errmsg" = Some m)
  /\ (forall e, check_error json = Raise e ->
        exists c m, e = AccessTokenInvalid c m \/ e = ClientException c m).
Proof.
  unfold envelope, errcode_is, check_error. intros Henv.
  assert (H40 : forall c, py_eq_int c 40001 = true -> py_eq_int c 0 = false).
  { intros [| [] | z | | |]; simpl; try discriminate.
    intros H. apply Z.eqb_eq in H. subst. reflexivity. }
  destruct (Py.getitem json "errcode") as [code|] eqn:Ecode.
  - specialize (Henv code eq_refl).
    destruct (py_eq_int code 0) eqn:E0; simpl.
    + classify.
      match goal with
      | H : py_eq_int _ 40001 = true |- _ => apply H40 in H; congruence
      end.
    + specialize (Henv eq_refl).
      destruct (Py.getitem json "errmsg") as [msg|] eqn:Emsg; [|congruence].
      destruct (py_eq_int code 40001) eqn:E4; classify.
  - classify.
Qed.

Lemma check_error_classification_witness :
  envelope body_invalid_credential
  /\ check_error body_invalid_credential
     = Raise (AccessTokenInvalid (VInt 40001) (VStr "invalid credential")).
Proof.
  assert (Henv : envelope body_invalid_credential).
  { intros c _ _. simpl. discriminate. }
  split; [exact Henv|].
  apply (proj1 (proj2 (check_error_classification _ Henv))).
  repeat split; reflexivity.
Defined.

(* ================================================================= *)
(** ** The credential cache *)

(** C7, as stated, fails where the subtraction rounds.  The
    clock reads [1 - 2^-53] and the token expires at 61: the difference
    is more than 60, Python computes [61 - now] as [60.0], the test
    [60.0 > 60] fails and the token is fetched. *)
Lemma get_access_token_rounds_the_difference :
  let now := time_time world_epoch (clock_reads cache_61) in
  (exact now == 1 - 1 / inject_Z (2 ^ 53))%Q
  /\ (60 < inject_Z 61 - exact now)%Q
  /\ int_sub_float 61 now = Ok (double 60 0)
  /\ fst (get_access_token false world_epoch cache_61) = Ok (VStr "NEW")
  /\ grant_calls (snd (get_access_token false world_epoch cache_61)) = 1%nat.
Proof.
  cbv zeta. split; [vm_compute; reflexivity|].
  split; [vm_compute; reflexivity|].
  split; [vm_compute; reflexivity|].
  split; vm_compute; reflexivity.
Qed.

(** What [store_access_token] leaves of the counters and of the trace. *)
Lemma store_access_token_steps json env s :
  grant_calls (snd (store_access_token json env s)) = grant_calls s
  /\ http_calls (snd (store_access_token json env s)) = http_calls s
  /\ trace (snd (store_access_token json env s)) = trace s.
Proof.
  unfold store_access_token, bind, subscript, set_client, time, get_client,
    lift, int_add, ret, raise.
  destruct json as [d|]; simpl; [|auto].
  destruct (Py.getitem d "access_token"); simpl; [|auto].
  destruct (py_int _); simpl; [|auto].
  destruct (Py.getitem d "expires_in") as [[]|]; simpl; auto.
Qed.

(** C7.  With an access token and an integer expiry in the
    cache, [get_access_token(force=False)] returns the token without
    calling the fetch function exactly when [token_expires_at - now],
    the double that Python computes from the integer and the reading of
    the clock, is more than 60: in that case nothing but the clock is
    touched.  Otherwise [grant_token] is called once, and when it
    answers with an [access_token] and an [expires_in] the client stores
    the token and the current time in whole seconds plus [expires_in],
    and returns the new token.  An expiry too large for a double raises
    the error of the conversion. *)
Theorem get_access_token_freshness (env : Env) (s : State) (expires_at : Z) :
  truthy (_token (client s)) = true ->
  token_expires_at (client s) = VInt expires_at ->
  let now := time_time env (clock_reads s) in
  let r := get_access_token false env s in
  (forall remaining,
     int_sub_float expires_at now = Ok remaining ->
     more_than_60 remaining = true ->
     r = (Ok (_token (client s)), tick s))
  /\ (forall remaining,
        int_sub_float expires_at now = Ok remaining ->
        more_than_60 remaining = false ->
        grant_calls (snd r) = S (grant_calls s)
        /\ trace (snd r)
           = trace s ++ [EvGrant (grant_token_reply env (grant_calls s))]
        /\ forall d access_token expires_in seconds,
             grant_token_reply env (grant_calls s) = Ok (Some d) ->
             Py.getitem d "access_token" = Some access_token ->
             Py.getitem d "expires_in" = Some (VInt expires_in) ->
             py_int (time_time env (S (clock_reads s))) = Ok seconds ->
             fst r = Ok access_token
             /\ _token (client (snd r)) = access_token
             /\ token_expires_at (client (snd r))
                = VInt (seconds + expires_in))
  /\ (forall e,
        int_sub_float expires_at now = Raise e -> r = (Raise e, tick s)).
Proof.
  intros Htok Hexp now r. subst r now.
  unfold get_access_token, cache_is_fresh, bind, get_client, time,
    expires_in_more_than_60, lift.
  simpl. rewrite Htok, Hexp. simpl. split; [|split].
  - intros remaining Hleft Hgt. rewrite Hleft. simpl. rewrite Hgt. reflexivity.
  - intros remaining Hleft Hgt. rewrite Hleft. simpl. rewrite Hgt.
    unfold grant_token. change (grant_calls (tick s)) with (grant_calls s).
    destruct (grant_token_reply env (grant_calls s)) as [json|e] eqn:Hr.
    all: set (s0 := record _ _); simpl.
    + destruct (store_access_token_steps json env s0) as (Hg & _ & Ht).
      rewrite Hg, Ht. split; [reflexivity|]. split; [reflexivity|].
      intros d tok ttl n Hd Htok' Httl Hn. inversion Hd; subst json.
      unfold store_access_token, bind, subscript, set_client, time,
        get_client, lift, int_add, ret.
      rewrite Htok'. simpl. rewrite Hn. simpl. rewrite Httl. simpl. auto.
    + split; [reflexivity|]. split; [reflexivity|]. discriminate.
  - intros e He. rewrite He. reflexivity.
Qed.

Lemma get_access_token_freshness_witness :
  truthy (_token (client cache_120)) = true
  /\ token_expires_at (client cache_120) = VInt 1120
  /\ int_sub_float 1120 (time_time world_1000 (clock_reads cache_120))
     = Ok (double 120 0)
  /\ more_than_60 (double 120 0) = true
  /\ get_access_token false world_1000 cache_120
     = (Ok (VStr "OLD"), tick cache_120).
Proof.
  split; [reflexivity|]. split; [reflexivity|].
  split; [vm_compute; reflexivity|]. split; [vm_compute; reflexivity|].
  apply (proj1 (get_access_token_freshness world_1000 cache_120 1120
                  eq_refl eq_refl) (double 120 0));
    vm_compute; reflexivity.
Defined.

(** The two cases of the design document: 120 seconds left, the cache
    answers; 30 seconds left, the token is fetched. *)
Example get_access_token_120 :
  get_access_token false world_1000 cache_120
  = (Ok (VStr "OLD"),
     {| client := client_with_token "OLD" 1120; clock_reads := 1;
        grant_calls := 0; http_calls := 0; trace := [] |}).
Proof. vm_compute. reflexivity. Qed.

Example get_access_token_30 :
  get_access_token false world_1000 cache_30
  = (Ok (VStr "NEW"),
     {| client := client_with_token "NEW" 8200; clock_reads := 2;
        grant_calls := 1; http_calls := 0;
        trace := [EvGrant (Ok (Some (token_body "NEW" 7200)))] |}).
Proof. vm_compute. reflexivity. Qed.

(** The margin on a clock of whole seconds: with exactly 60 seconds to
    go the token is fetched, with 61 the cache answers. *)
Example get_access_token_margin :
  fst (get_access_token false world_1000
         (initial (client_with_token "OLD" 1060))) = Ok (VStr "NEW")
  /\ get_access_token false world_1000
       (initial (client_with_token "OLD" 1061))
     = (Ok (VStr "OLD"), tick (initial (client_with_token "OLD" 1061))).
Proof. split; vm_compute; reflexivity. Qed.

(** C3.  On the refresh path [get_jsapi_ticket] must return
    the ticket it fetched.  Its last line is [return self._token]: with
    the access token [OLD] in the cache and no ticket, the platform
    answers with the ticket [TICKET], the client stores it, and the call
    returns [OLD]. *)
Theorem get_jsapi_ticket_returns_access_token :
  fst ticket_run = Ok (VStr "OLD")
  /\ _jsapi_ticket (client (snd ticket_run)) = VStr "TICKET"
  /\ jsapi_ticket_expires_at (client (snd ticket_run)) = VInt 8200
  /\ fst ticket_run <> Ok (VStr "TICKET").
Proof.
  vm_compute. repeat split; try reflexivity. discriminate.
Qed.


(* ================================================================= *)
(** ** What a computation leaves untouched *)

Section Preservation.

Variable R : State -> State -> Prop.
Hypothesis R_refl : forall s, R s s.
Hypothesis R_trans : forall s1 s2 s3, R s1 s2 -> R s2 s3 -> R s1 s3.

Lemma preserves_ret {A} (a : A) : preserves R (ret a).
Proof. intros env s. apply R_refl. Qed.

Lemma preserves_raise {A} (e : exn) : preserves R (@raise A e).
Proof. intros env s. apply R_refl. Qed.

Lemma preserves_lift {A} (r : result A) : preserves R (lift r).
Proof. intros env s. apply R_refl. Qed.

Lemma preserves_get_client : preserves R get_client.
Proof. intros env s. apply R_refl. Qed.

Lemma preserves_bind {A B} (m : M A) (k : A -> M B) :
  preserves R m -> (forall a, preserves R (k a)) -> preserves R (bind m k).
Proof.
  intros Hm Hk env s. unfold bind. specialize (Hm env s).
  destruct (m env s) as [[a|e] s']; simpl in *; [|exact Hm].
  eapply R_trans; [exact Hm|]. apply Hk.
Qed.

Lemma preserves_except {A} (m : M A) (h : exn -> M A) :
  preserves R m -> (forall e, preserves R (h e)) ->
  preserves R (except_AccessTokenInvalid m h).
Proof.
  intros Hm Hh env s. unfold except_AccessTokenInvalid. specialize (Hm env s).
  destruct (m env s) as [[a|[]] s']; simpl in *; try exact Hm.
  eapply R_trans; [exact Hm|]. apply Hh.
Qed.

Lemma preserves_retry_loop {A} (n : nat) (p : exn -> bool) (fn : M A) :
  preserves R fn -> preserves R (retry_loop n p fn).
Proof.
  intros Hfn. induction n as [|n IH]; intros env s; simpl;
    pose proof (Hfn env s) as H;
    destruct (fn env s) as [[a|e] s']; simpl in *; try exact H;
    destruct (p e); simpl; try exact H.
  eapply R_trans; [exact H|]. apply IH.
Qed.

Lemma preserves_subscript json k : preserves R (subscript json k).
Proof.
  unfold subscript. destruct json as [d|]; [|apply preserves_raise].
  destruct (Py.getitem d k); [apply preserves_ret|apply preserves_raise].
Qed.

Lemma preserves_expires_in_more_than_60 v now :
  preserves R (expires_in_more_than_60 v now).
Proof.
  destruct v; simpl; try apply preserves_raise;
    (apply preserves_bind; [apply preserves_lift|intro; apply preserves_ret]).
Qed.

Lemma preserves_int_add n v : preserves R (int_add n v).
Proof.
  destruct v; simpl; try apply preserves_raise; apply preserves_ret.
Qed.

(** The steps of [get_access_token]. *)
Hypothesis R_tick : forall s, R s (tick s).
Hypothesis R_grant :
  forall r fields s,
    R s (record (EvGrant r)
           (granted (update_client (set_token_fields fields) s))).
Hypothesis R_set_token : forall v s, R s (update_client (set_token v) s).
Hypothesis R_set_token_expires_at :
  forall v s, R s (update_client (set_token_expires_at v) s).

Lemma preserves_time : preserves R time.
Proof. intros env s. apply R_tick. Qed.

Lemma preserves_cache_is_fresh force cached expires_at :
  preserves R (cache_is_fresh force cached expires_at).
Proof.
  unfold cache_is_fresh.
  destruct (negb force && truthy cached); [|apply preserves_ret].
  apply preserves_bind; [apply preserves_time|]. intros now.
  apply preserves_expires_in_more_than_60.
Qed.

Lemma preserves_grant_token : preserves R grant_token.
Proof. intros env s. apply R_grant. Qed.

Lemma preserves_store_access_token json :
  preserves R (store_access_token json).
Proof.
  unfold store_access_token.
  repeat first
    [ apply preserves_ret
    | apply preserves_get_client
    | apply preserves_time
    | apply preserves_lift
    | apply preserves_subscript
    | apply preserves_int_add
    | intros env s; apply R_set_token
    | intros env s; apply R_set_token_expires_at
    | apply preserves_bind; [|intro] ].
Qed.

Lemma preserves_get_access_token force : preserves R (get_access_token force).
Proof.
  unfold get_access_token.
  apply preserves_bind; [apply preserves_get_client|]. intros c.
  apply preserves_bind; [apply preserves_cache_is_fresh|].
  intros [|]; [apply preserves_ret|].
  apply preserves_bind; [apply preserves_grant_token|].
  apply preserves_store_access_token.
Qed.

Lemma preserves_prepare kw : preserves R (prepare kw).
Proof.
  unfold prepare, token.
  destruct (params kw) as [p|].
  - destruct (Py.contains p "access_token"); [|apply preserves_ret].
    destruct (negb _); [|apply preserves_ret].
    apply preserves_bind; [apply preserves_get_access_token|].
    intro. apply preserves_ret.
  - apply preserves_bind; [apply preserves_get_access_token|].
    intro. apply preserves_ret.
Qed.

(** Sending, the [try] statement and one whole attempt. *)
Hypothesis R_http :
  forall method url p d r s, R s (record (EvHttp method url p d r) (requested s)).

Lemma preserves_send method url kw : preserves R (send method url kw).
Proof.
  unfold send. destruct (timeout kw), (oauth2_access_token kw);
    try apply preserves_raise. intros env s. apply R_http.
Qed.

Lemma preserves_exchange method url kw : preserves R (exchange method url kw).
Proof.
  unfold exchange.
  apply preserves_bind; [apply preserves_prepare|]. intros kw'.
  apply preserves_send.
Qed.

Lemma preserves_on_body (json : Py.dict value) : preserves R (on_body json).
Proof.
  apply preserves_except.
  - apply preserves_bind; [apply preserves_lift|]. intros checked.
    destruct (truthy _); apply preserves_ret.
  - intros e. apply preserves_bind; [apply preserves_get_access_token|].
    intro. apply preserves_raise.
Qed.

Lemma preserves_request_body method url kw :
  preserves R (request_body method url kw).
Proof.
  unfold request_body.
  apply preserves_bind; [apply preserves_exchange|]. intros json.
  apply preserves_on_body.
Qed.

Hypothesis R_call : forall s, R s (record EvCall s).

Lemma preserves_attempt method url kw : preserves R (attempt method url kw).
Proof.
  unfold attempt. apply preserves_bind; [intros env s; apply R_call|].
  intros _. apply preserves_request_body.
Qed.

Lemma preserves_request method url kw : preserves R (request method url kw).
Proof. apply preserves_retry_loop, preserves_attempt. Qed.

Lemma preserves_jsapi_ticket : preserves R jsapi_ticket.
Proof.
  unfold jsapi_ticket, token, get.
  apply preserves_bind; [apply preserves_get_access_token|].
  intro. apply preserves_request.
Qed.

End Preservation.

Lemma same_ticket_refl s : same_ticket s s.
Proof. split; reflexivity. Qed.

Lemma same_ticket_trans s1 s2 s3 :
  same_ticket s1 s2 -> same_ticket s2 s3 -> same_ticket s1 s3.
Proof. intros [H1 H2] [H3 H4]. split; congruence. Qed.

(** Fetching a ticket may refresh the access token on its way; it never
    writes the fields of the ticket. *)
Lemma jsapi_ticket_same_ticket : preserves same_ticket jsapi_ticket.
Proof.
  apply preserves_jsapi_ticket;
    first [ apply same_ticket_refl | apply same_ticket_trans
          | intros; split; reflexivity ].
Qed.

Arguments jsapi_ticket : simpl never.
Arguments cache_is_fresh : simpl never.

(** The test of the cache reads the clock when there is a value to
    check, and nothing else. *)
Lemma cache_is_fresh_state force cached expires_at env s :
  snd (cache_is_fresh force cached expires_at env s) = s
  \/ snd (cache_is_fresh force cached expires_at env s) = tick s.
Proof.
  unfold cache_is_fresh, bind, time, expires_in_more_than_60, lift, ret, raise.
  destruct (negb force && truthy cached); [|now left]. right.
  destruct expires_at; simpl; try reflexivity;
    destruct (int_sub_float _ _); reflexivity.
Qed.

(** With [force], or with nothing in the cache, there is no test. *)
Lemma cache_is_fresh_skipped force cached expires_at env s :
  force = true \/ truthy cached = false ->
  cache_is_fresh force cached expires_at env s = (Ok false, s).
Proof.
  unfold cache_is_fresh. intros [->| ->]; [reflexivity|].
  now rewrite andb_false_r.
Qed.

(** Both getters go on to their fetch in the state the test left. *)
Lemma get_access_token_at_fetch force env s s0 :
  cache_is_fresh force (_token (client s)) (token_expires_at (client s)) env s
  = (Ok false, s0) ->
  get_access_token force env s = bind grant_token store_access_token env s0.
Proof.
  intros H. unfold get_access_token, get_client. unfold bind at 1 2.
  rewrite H. reflexivity.
Qed.

Lemma get_jsapi_ticket_at_fetch force env s s0 :
  cache_is_fresh force (_jsapi_ticket (client s))
    (jsapi_ticket_expires_at (client s)) env s
  = (Ok false, s0) ->
  get_jsapi_ticket force env s = bind jsapi_ticket store_jsapi_ticket env s0.
Proof.
  intros H. unfold get_jsapi_ticket, get_client. unfold bind at 1 2.
  rewrite H. reflexivity.
Qed.

Lemma store_access_token_ok d access_token expires_in seconds env s :
  Py.getitem d "access_token" = Some access_token ->
  Py.getitem d "expires_in" = Some (VInt expires_in) ->
  py_int (time_time env (clock_reads s)) = Ok seconds ->
  store_access_token (Some d) env s
  = (Ok access_token,
     update_client (set_token_expires_at (VInt (seconds + expires_in)))
       (tick (update_client (set_token access_token) s))).
Proof.
  intros Htok Httl Hn. unfold store_access_token, bind, subscript, time, lift.
  rewrite Htok. simpl. rewrite Hn, Httl. reflexivity.
Qed.

Lemma store_jsapi_ticket_ok d ticket expires_in seconds env s :
  Py.getitem d "ticket" = Some ticket ->
  Py.getitem d "expires_in" = Some (VInt expires_in) ->
  py_int (time_time env (clock_reads s)) = Ok seconds ->
  store_jsapi_ticket (Some d) env s
  = (Ok (_token (client s)),
     update_client (set_jsapi_ticket_expires_at (VInt (seconds + expires_in)))
       (tick (update_client (set_jsapi_ticket ticket) s))).
Proof.
  intros Htok Httl Hn. unfold store_jsapi_ticket, bind, subscript, time, lift.
  rewrite Htok. simpl. rewrite Hn, Httl. reflexivity.
Qed.

(** Case analysis on how far a [store_...] gets. *)
Ltac store_cases :=
  unfold store_access_token, store_jsapi_ticket, bind, subscript, set_client,
    time, get_client, lift, int_add, ret, raise;
  repeat match goal with
         | H : Py.getitem ?d ?k = _ |- context [Py.getitem ?d ?k] =>
             rewrite H; simpl
         | H : py_int ?x = _ |- context [py_int ?x] => rewrite H; simpl
         end.

Lemma bind_ok {A B} (m : M A) (k : A -> M B) env s a s1 :
  m env s = (Ok a, s1) -> bind m k env s = k a env s1.
Proof. intros H. unfold bind. now rewrite H. Qed.

Lemma bind_raise {A B} (m : M A) (k : A -> M B) env s e s1 :
  m env s = (Raise e, s1) -> bind m k env s = (Raise e, s1).
Proof. intros H. unfold bind. now rewrite H. Qed.

(** The outcomes of a [store_...] on a body that holds the value. *)
Ltac store_outcomes :=
  store_cases;
  match goal with
  | |- context [py_int ?x] => destruct (py_int x) as [?n|?e] eqn:?Hn; simpl
  end;
  [ match goal with
    | |- context [Py.getitem ?d "expires_in"] =>
        destruct (Py.getitem d "expires_in") as [[]|] eqn:?Hx; simpl
    end
  | ];
  (split; [reflexivity|]);
  (split; [intros ? ?; try reflexivity; discriminate|]);
  (split; [intros ?; try discriminate; eauto|]);
  (split; [intros ? Hx' Hnot; try discriminate;
           try (inversion Hx'; subst; contradiction); eauto|]);
  intros ? ? Hx' Hn'; try discriminate;
  inversion Hx'; inversion Hn'; subst; split; reflexivity.

Lemma store_access_token_writes d v env s1 :
  Py.getitem d "access_token" = Some v ->
  let r := store_access_token (Some d) env s1 in
  _token (client (snd r)) = v
  /\ (forall e, fst r = Raise e ->
        token_expires_at (client (snd r)) = token_expires_at (client s1))
  /\ (Py.getitem d "expires_in" = None -> exists e, fst r = Raise e)
  /\ (forall x, Py.getitem d "expires_in" = Some x -> not_a_number x ->
        exists e, fst r = Raise e)
  /\ (forall expires_in seconds,
        Py.getitem d "expires_in" = Some (VInt expires_in) ->
        py_int (time_time env (clock_reads s1)) = Ok seconds ->
        fst r = Ok (_token (client (snd r)))
        /\ token_expires_at (client (snd r)) = VInt (seconds + expires_in)).
Proof. intros Hk. cbv zeta. store_outcomes. Qed.

Lemma store_jsapi_ticket_writes d v env s1 :
  Py.getitem d "ticket" = Some v ->
  let r := store_jsapi_ticket (Some d) env s1 in
  _jsapi_ticket (client (snd r)) = v
  /\ (forall e, fst r = Raise e ->
        jsapi_ticket_expires_at (client (snd r))
        = jsapi_ticket_expires_at (client s1))
  /\ (Py.getitem d "expires_in" = None -> exists e, fst r = Raise e)
  /\ (forall x, Py.getitem d "expires_in" = Some x -> not_a_number x ->
        exists e, fst r = Raise e)
  /\ (forall expires_in seconds,
        Py.getitem d "expires_in" = Some (VInt expires_in) ->
        py_int (time_time env (clock_reads s1)) = Ok seconds ->
        fst r = Ok (_token (client (snd r)))
        /\ jsapi_ticket_expires_at (client (snd r))
           = VInt (seconds + expires_in)).
Proof. intros Hk. cbv zeta. store_outcomes. Qed.

Lemma get_access_token_writes force env s s0 :
  cache_is_fresh force (_token (client s)) (token_expires_at (client s)) env s
  = (Ok false, s0) ->
  writes_after_fetch (get_access_token force) grant_token
    "access_token" _token token_expires_at env s s0.
Proof.
  intros Hc. unfold writes_after_fetch.
  rewrite (get_access_token_at_fetch force env s s0 Hc).
  split; [|split; [|split]].
  - intros e s1 H. now rewrite (bind_raise _ _ _ _ _ _ H).
  - intros s1 H. now rewrite (bind_ok _ _ _ _ _ _ H).
  - intros d s1 H Hk. rewrite (bind_ok _ _ _ _ _ _ H). store_cases.
    reflexivity.
  - intros d v s1 H Hk. rewrite (bind_ok _ _ _ _ _ _ H).
    exact (store_access_token_writes d v env s1 Hk).
Qed.

Lemma get_jsapi_ticket_writes force env s s0 :
  cache_is_fresh force (_jsapi_ticket (client s))
    (jsapi_ticket_expires_at (client s)) env s
  = (Ok false, s0) ->
  writes_after_fetch (get_jsapi_ticket force) jsapi_ticket
    "ticket" _jsapi_ticket jsapi_ticket_expires_at env s s0.
Proof.
  intros Hc. unfold writes_after_fetch.
  rewrite (get_jsapi_ticket_at_fetch force env s s0 Hc).
  split; [|split; [|split]].
  - intros e s1 H. now rewrite (bind_raise _ _ _ _ _ _ H).
  - intros s1 H. now rewrite (bind_ok _ _ _ _ _ _ H).
  - intros d s1 H Hk. rewrite (bind_ok _ _ _ _ _ _ H). store_cases.
    reflexivity.
  - intros d v s1 H Hk. rewrite (bind_ok _ _ _ _ _ _ H).
    exact (store_jsapi_ticket_writes d v env s1 Hk).
Qed.

(** What [grant_token] leaves behind reaches the caller of
    [get_access_token] when the fetch fails: in a world where the call
    raises after its own handler has stored the token [INNER], the
    getter raises the same error and the cache holds [INNER]. *)
Example failed_fetch_that_stored_a_token :
  get_access_token true world_inner_refresh cache_120
  = (Raise ReadTimeout,
     {| client := client_with_token "INNER" 8200; clock_reads := 0;
        grant_calls := 1; http_calls := 0;
        trace := [EvGrant (Raise ReadTimeout)] |}).
Proof. vm_compute. reflexivity. Qed.

(** C9, as stated, fails twice.  A token response without
    [expires_in]: [get_access_token] raises [KeyError] after it has
    stored the token, so the cache holds the new token with the old
    expiry.  And a ticket whose fetch fails in transport after it has
    refreshed the access token: [get_jsapi_ticket] raises, and the
    cached access token and its expiry are new. *)
Lemma failed_calls_change_the_cache :
  (fst (get_access_token true world_without_expiry cache_120)
   = Raise (KeyError "expires_in")
   /\ client cache_120 = client_with_token "OLD" 1120
   /\ client (snd (get_access_token true world_without_expiry cache_120))
      = client_with_token "NEW" 1120)
  /\ (fst (jsapi_ticket world_http_down cache_30) = Raise RequestException
      /\ fst (get_jsapi_ticket true world_http_down cache_30)
         = Raise RequestException
      /\ client cache_30 = client_with_token "OLD" 1030
      /\ client (snd (get_jsapi_ticket true world_http_down cache_30))
         = client_with_token "NEW" 8200).
Proof. repeat split; vm_compute; reflexivity. Qed.

(** C9.  Once the cache has not answered, each getter calls
    its fetch and writes only after the fetch has returned.  When the
    fetch raises, the getter raises the same error and writes nothing:
    the client is as the fetch left it, which for [grant_token] is the
    client of before with what the call left in the two fields of the
    access token, and for [self.jsapi_ticket()] a client with the ticket
    and its expiry of before.  When the fetch returns a body with the
    value and an integer [expires_in], value and expiry are both
    replaced.  When it returns a body with the value and no [expires_in]
    that can be added to an [int], the value is stored, the call raises
    and the expiry is the one of before. *)
Theorem fetch_failure_leaves_cache (force : bool) (env : Env) (s : State) :
  (forall s0,
     cache_is_fresh force (_token (client s)) (token_expires_at (client s))
       env s = (Ok false, s0) ->
     writes_after_fetch (get_access_token force) grant_token
       "access_token" _token token_expires_at env s s0
     /\ client (snd (grant_token env s0))
        = left_by_grant_token env s (client s))
  /\ (forall s0,
        cache_is_fresh force (_jsapi_ticket (client s))
          (jsapi_ticket_expires_at (client s)) env s = (Ok false, s0) ->
        writes_after_fetch (get_jsapi_ticket force) jsapi_ticket
          "ticket" _jsapi_ticket jsapi_ticket_expires_at env s s0
        /\ same_ticket s (snd (jsapi_ticket env s0)))
  /\ (force = true ->
      cache_is_fresh force (_token (client s)) (token_expires_at (client s))
        env s = (Ok false, s)
      /\ cache_is_fresh force (_jsapi_ticket (client s))
           (jsapi_ticket_expires_at (client s)) env s = (Ok false, s)).
Proof.
  split; [|split].
  - intros s0 Hc. split; [exact (get_access_token_writes force env s s0 Hc)|].
    pose proof (cache_is_fresh_state force (_token (client s))
                  (token_expires_at (client s)) env s) as Hs.
    rewrite Hc in Hs. simpl in Hs. destruct Hs as [->| ->]; reflexivity.
  - intros s0 Hc. split; [exact (get_jsapi_ticket_writes force env s s0 Hc)|].
    pose proof (cache_is_fresh_state force (_jsapi_ticket (client s))
                  (jsapi_ticket_expires_at (client s)) env s) as Hs.
    rewrite Hc in Hs. simpl in Hs.
    pose proof (jsapi_ticket_same_ticket env s0) as Hsame.
    destruct Hs as [->| ->]; exact Hsame.
  - intros ->. split; apply cache_is_fresh_skipped; now left.
Qed.

(** Both getters in a world where every fetch fails. *)
Lemma fetch_failure_leaves_cache_witness :
  cache_is_fresh true (_token (client cache_120))
    (token_expires_at (client cache_120)) world_down cache_120
  = (Ok false, cache_120)
  /\ (exists s1,
        grant_token world_down cache_120 = (Raise ReadTimeout, s1)
        /\ get_access_token true world_down cache_120
           = (Raise ReadTimeout, s1)
        /\ client s1 = client cache_120)
  /\ (exists s1,
        jsapi_ticket world_down cache_120 = (Raise RequestException, s1)
        /\ get_jsapi_ticket true world_down cache_120
           = (Raise RequestException, s1)
        /\ same_ticket cache_120 s1).
Proof.
  destruct (fetch_failure_leaves_cache true world_down cache_120)
    as (HA & HB & HC).
  destruct (HC eq_refl) as [Htok Htkt].
  destruct (HA cache_120 Htok) as [(Hraise & _) Hleft].
  destruct (HB cache_120 Htkt) as [(Hraise' & _) Hsame].
  split; [exact Htok|]. split.
  - exists (snd (grant_token world_down cache_120)).
    split; [reflexivity|]. split; [apply Hraise; reflexivity|].
    rewrite Hleft. reflexivity.
  - pose (x := jsapi_ticket world_down cache_120).
    assert (Hx : x = (Raise RequestException, snd x))
      by (vm_compute; reflexivity).
    exists (snd x). split; [exact Hx|].
    split; [apply Hraise'; exact Hx|exact Hsame].
Defined.

(* ================================================================= *)
(** ** The retrying executor *)

Lemma attempts_record ev s :
  attempts (record ev s) = if is_call ev then S (attempts s) else attempts s.
Proof.
  unfold attempts, record. simpl. rewrite filter_app, length_app. simpl.
  destruct (is_call ev); simpl; lia.
Qed.

(** Only the decorator records a call. *)
Lemma request_body_attempts method url kw :
  preserves (fun s s' => attempts s' = attempts s)
            (request_body method url kw).
Proof.
  apply preserves_request_body; intros; try congruence;
    try rewrite attempts_record; reflexivity.
Qed.

Lemma attempt_attempts method url kw env s :
  attempts (snd (attempt method url kw env s)) = S (attempts s).
Proof.
  unfold attempt, bind, log.
  pose proof (request_body_attempts method url kw env (record EvCall s)) as H.
  simpl in H. destruct (request_body method url kw env (record EvCall s))
    as [[a|e] s']; simpl in *; rewrite H, attempts_record; reflexivity.
Qed.

Lemma failed_attempts_count method url kw env k s s1 :
  failed_attempts env (attempt method url kw) k s s1 ->
  attempts s1 = (attempts s + k)%nat.
Proof.
  induction 1 as [s|n s e s1 s2 Hfn Hre Hrest IH]; [lia|].
  rewrite IH. pose proof (attempt_attempts method url kw env s) as H.
  rewrite Hfn in H. simpl in H. lia.
Qed.

(** After [k] attempts that were retried the loop goes on with [k]
    attempts fewer. *)
Lemma retry_loop_after_failures {A} (fn : M A) env n k s s1 :
  failed_attempts env fn k s s1 -> (k <= n)%nat ->
  retry_loop n retry_exception fn env s
  = retry_loop (n - k) retry_exception fn env s1.
Proof.
  intros H. revert n. induction H as [s|k s e s1 s2 Hfn Hre Hrest IH];
    intros n Hle.
  - now rewrite Nat.sub_0_r.
  - destruct n as [|n]; [lia|]. simpl. rewrite Hfn, Hre.
    apply IH. lia.
Qed.

(** C4.  When the first [k] attempts of [request] (at most two) raise
    errors that [retry_exception] accepts and the next attempt raises
    [e], then [request] raises [e] after exactly [k + 1] attempts if [e]
    is not retried, whatever [k] is, and after exactly three attempts if
    it was the third: three retryable failures in a row end the call
    with the last of them, and an error that is not retryable ends it
    at once. *)
Theorem request_retry_bound env method url kw k s s1 e s2 :
  (k <= 2)%nat ->
  failed_attempts env (attempt method url kw) k s s1 ->
  attempt method url kw env s1 = (Raise e, s2) ->
  k = 2%nat \/ retry_exception e = false ->
  request method url kw env s = (Raise e, s2)
  /\ attempts s2 = (attempts s + k + 1)%nat
  /\ (retry_exception e = true
      <-> (exists c m, e = AccessTokenInvalid c m)
          \/ e = ConnectTimeout \/ e = ReadTimeout).
Proof.
  intros Hk Hfail Hlast Hstop. split; [|split].
  - unfold request, retry. change (3 - 1)%nat with 2%nat.
    rewrite (retry_loop_after_failures _ env 2 k s s1 Hfail Hk).
    destruct Hstop as [->|Hno].
    + simpl. rewrite Hlast. destruct (retry_exception e); reflexivity.
    + destruct (2 - k)%nat; simpl; rewrite Hlast, Hno; reflexivity.
  - pose proof (attempt_attempts method url kw env s1) as H.
    rewrite Hlast in H. simpl in H.
    rewrite H, (failed_attempts_count _ _ _ _ _ _ _ Hfail). lia.
  - destruct e; simpl; split; intros H; try discriminate; eauto;
      destruct H as [(c & m & H)|[H|H]]; discriminate.
Qed.

Lemma request_retry_bound_witness :
  exists s1 s2,
    failed_attempts world_timeout (attempt "get" "/" no_kwargs) 2 cache_120 s1
    /\ attempt "get" "/" no_kwargs world_timeout s1 = (Raise ReadTimeout, s2)
    /\ request "get" "/" no_kwargs world_timeout cache_120
       = (Raise ReadTimeout, s2)
    /\ attempts s2 = 3%nat
    /\ (retry_exception ReadTimeout = true
        <-> (exists c m, ReadTimeout = AccessTokenInvalid c m)
            \/ ReadTimeout = ConnectTimeout \/ ReadTimeout = ReadTimeout).
Proof.
  pose (a1 := attempt "get" "/" no_kwargs world_timeout cache_120).
  pose (a2 := attempt "get" "/" no_kwargs world_timeout (snd a1)).
  pose (a3 := attempt "get" "/" no_kwargs world_timeout (snd a2)).
  assert (H1 : a1 = (Raise ReadTimeout, snd a1)) by (vm_compute; reflexivity).
  assert (H2 : a2 = (Raise ReadTimeout, snd a2)) by (vm_compute; reflexivity).
  assert (H3 : a3 = (Raise ReadTimeout, snd a3)) by (vm_compute; reflexivity).
  assert (Hfail : failed_attempts world_timeout (attempt "get" "/" no_kwargs)
                    2 cache_120 (snd a2)).
  { eapply failed_more; [exact H1|reflexivity|].
    eapply failed_more; [exact H2|reflexivity|]. apply failed_none. }
  exists (snd a2), (snd a3).
  split; [exact Hfail|]. split; [exact H3|].
  exact (request_retry_bound world_timeout "get" "/" no_kwargs 2 cache_120
           (snd a2) ReadTimeout (snd a3) (le_n 2) Hfail H3
           (or_introl eq_refl)).
Defined.

(** A call that returned is not retried. *)
Lemma retry_loop_returned {A} (fn : M A) p env n s a s' :
  fn env s = (Ok a, s') -> retry_loop n p fn env s = (Ok a, s').
Proof. intros H. destruct n; simpl; rewrite H; reflexivity. Qed.

(** C8, as stated, fails on the empty object: [request] tests the truth
    of what [check_error] returned, and for [{}] falls off its end. *)
Lemma request_empty_body_returns_None :
  check_error [] = Ok []
  /\ fst (request "get" "/" no_kwargs world_empty_body cache_120) = Ok None
  /\ fst (request "get" "/" no_kwargs world_empty_body cache_120)
     <> Ok (Some []).
Proof.
  split; [reflexivity|]. split; [vm_compute; reflexivity|].
  vm_compute. discriminate.
Qed.

(** C8.  When an attempt of [request] (after at most two
    retried ones) gets a decoded body that [check_error] accepts,
    [request] returns that whole body if it is not the empty object,
    and [None] if it is. *)
Theorem request_returns_body env method url kw k s s1 json s2 :
  (k <= 2)%nat ->
  failed_attempts env (attempt method url kw) k s s1 ->
  exchange method url kw env (record EvCall s1) = (Ok json, s2) ->
  check_error json = Ok json ->
  (json <> [] -> request method url kw env s = (Ok (Some json), s2))
  /\ (json = [] -> request method url kw env s = (Ok None, s2)).
Proof.
  intros Hk Hfail Hex Hcheck.
  assert (Hatt : attempt method url kw env s1
                 = (Ok (if truthy (VDict json) then Some json else None), s2)).
  { unfold attempt, request_body, bind, log. rewrite Hex.
    unfold on_body, except_AccessTokenInvalid, bind, lift. rewrite Hcheck.
    destruct (truthy (VDict json)); reflexivity. }
  unfold request, retry. change (3 - 1)%nat with 2%nat.
  rewrite (retry_loop_after_failures _ env 2 k s s1 Hfail Hk).
  rewrite (retry_loop_returned _ _ _ _ _ _ _ Hatt).
  split; intros Hj.
  - destruct json; [congruence|reflexivity].
  - subst json. reflexivity.
Qed.

Lemma request_returns_body_witness :
  exists s2,
    failed_attempts world_1000 (attempt "get" "/" no_kwargs) 0
      cache_120 cache_120
    /\ exchange "get" "/" no_kwargs world_1000 (record EvCall cache_120)
       = (Ok (ticket_body "TICKET" 7200), s2)
    /\ check_error (ticket_body "TICKET" 7200) = Ok (ticket_body "TICKET" 7200)
    /\ request "get" "/" no_kwargs world_1000 cache_120
       = (Ok (Some (ticket_body "TICKET" 7200)), s2).
Proof.
  pose (x := exchange "get" "/" no_kwargs world_1000 (record EvCall cache_120)).
  assert (Hx : x = (Ok (ticket_body "TICKET" 7200), snd x))
    by (vm_compute; reflexivity).
  exists (snd x).
  split; [apply failed_none|]. split; [exact Hx|]. split; [reflexivity|].
  apply (proj1 (request_returns_body world_1000 "get" "/" no_kwargs 0
                  cache_120 cache_120 (ticket_body "TICKET" 7200) (snd x)
                  (Nat.le_0_l 2) (failed_none _ _ _) Hx eq_refl)).
  discriminate.
Defined.

(* ================================================================= *)
(** ** send_all_text_message *)

(** [prepare] hands on the [timeout] it was given. *)
Lemma prepare_timeout kw env s kw' s' :
  prepare kw env s = (Ok kw', s') -> timeout kw' = timeout kw.
Proof.
  unfold prepare, bind, ret.
  destruct (params kw) as [p|].
  - destruct (Py.contains p "access_token").
    + destruct (negb _).
      * destruct (token env s) as [[v|e] s0]; intros H; inversion H;
          reflexivity.
      * intros H; inversion H; reflexivity.
    + intros H; inversion H; reflexivity.
  - destruct (token env s) as [[v|e] s0]; intros H; inversion H; reflexivity.
Qed.

(** Nothing but [send] makes an HTTP call. *)
Lemma prepare_http_calls kw :
  preserves (fun s s' => http_calls s' = http_calls s) (prepare kw).
Proof. apply preserves_prepare; intros; congruence || reflexivity. Qed.

(** With a [timeout] among its keyword arguments an attempt raises
    before anything is sent. *)
Lemma attempt_with_timeout method url kw t env s :
  timeout kw = Some t ->
  (exists e, fst (attempt method url kw env s) = Raise e)
  /\ http_calls (snd (attempt method url kw env s)) = http_calls s.
Proof.
  intros Ht. unfold attempt, request_body, exchange, bind, log.
  pose proof (prepare_http_calls kw env (record EvCall s)) as Hh.
  pose proof (prepare_timeout kw env (record EvCall s)) as Hp.
  destruct (prepare kw env (record EvCall s)) as [[kw'|e] s']; simpl in *.
  - specialize (Hp kw' s' eq_refl). unfold send. rewrite Hp, Ht. simpl.
    split; [eauto|exact Hh].
  - split; [eauto|exact Hh].
Qed.

Lemma request_with_timeout method url kw t env s :
  timeout kw = Some t ->
  (exists e, fst (request method url kw env s) = Raise e)
  /\ http_calls (snd (request method url kw env s)) = http_calls s.
Proof.
  intros Ht. unfold request, retry. generalize (3 - 1)%nat. intros n.
  revert s. induction n as [|n IH]; intros s; simpl;
    destruct (attempt_with_timeout method url kw t env s Ht) as [[e He] Hh];
    destruct (attempt method url kw env s) as [[a|e'] s'];
    simpl in *; try discriminate;
    destruct (retry_exception e'); simpl; eauto.
  destruct (IH s') as [He' Hh']. split; [exact He'|congruence].
Qed.

(** Whatever the text, [send_all_text_message] raises and makes no HTTP
    call: a text of 2048 bytes or more fails the assertion, a shorter
    one reaches [requests.request] with two values for [timeout]. *)
Lemma send_all_text_message_never_sends content env s :
  (exists e, fst (send_all_text_message content env s) = Raise e)
  /\ http_calls (snd (send_all_text_message content env s)) = http_calls s
  /\ ((2048 <= List.length (Py.encode_utf8 content))%nat ->
      send_all_text_message content env s = (Raise AssertionError, s)).
Proof.
  unfold send_all_text_message.
  destruct (List.length (Py.encode_utf8 content) <? 2048)%nat eqn:Hlen.
  - apply Nat.ltb_lt in Hlen. unfold bind, time, lift, post.
    destruct (py_int _) as [clientmsgid|e0];
      [|simpl; repeat split; [eauto|lia]].
    match goal with
    | |- context [request ?m ?u ?k env (tick s)] =>
        destruct (request_with_timeout m u k 10%Z env (tick s) eq_refl)
          as [[e He] Hh];
        destruct (request m u k env (tick s)) as [r s'] eqn:Hreq
    end.
    simpl in *. repeat split; [eauto|exact Hh|lia].
  - unfold raise. simpl. repeat split; eauto.
Qed.

(** C10.  A text of 2047 bytes must be accepted for
    submission.  It passes the assertion, and then [request] calls
    [requests.request(method=method, url=url, timeout=5, **kwargs)]
    with the [timeout=10] that [send_all_text_message] passed along:
    the call raises [TypeError] and nothing is sent.  A text of 2048
    bytes is rejected by the assertion. *)
Theorem send_all_text_message_2047_is_not_sent :
  List.length (Py.encode_utf8 (text_of_length 2047)) = 2047%nat
  /\ fst (send_all_text_message (text_of_length 2047) world_1000 cache_120)
     = Raise TypeError
  /\ http_calls
       (snd (send_all_text_message (text_of_length 2047) world_1000 cache_120))
     = 0%nat
  /\ List.length (Py.encode_utf8 (text_of_length 2048)) = 2048%nat
  /\ send_all_text_message (text_of_length 2048) world_1000 cache_120
     = (Raise AssertionError, cache_120).
Proof. repeat split; vm_compute; reflexivity. Qed.

(* ================================================================= *)
(** ** Refresh after an invalid credential *)

(** C5, as stated, fails when the forced fetch itself fails with an
    error that is retried: the handler of [request] raises the timeout
    of [grant_token], the decorator starts the next attempt, and that
    attempt sends the token of the cache, the one that was just
    refused. *)
Lemma request_resends_stale_token :
  trace (snd stale_run)
  = [EvCall;
     EvHttp "get" "/" [("access_token", VStr "OLD")] None
       (Ok body_invalid_credential);
     EvGrant (Raise ReadTimeout);
     EvCall;
     EvHttp "get" "/" [("access_token", VStr "OLD")] None
       (Ok (ticket_body "TICKET" 7200))]
  /\ fst stale_run = Ok (Some (ticket_body "TICKET" 7200))
  /\ ~ refreshed true Nothing (trace (snd stale_run)).
Proof.
  assert (H : trace (snd stale_run)
              = [EvCall;
                 EvHttp "get" "/" [("access_token", VStr "OLD")] None
                   (Ok body_invalid_credential);
                 EvGrant (Raise ReadTimeout);
                 EvCall;
                 EvHttp "get" "/" [("access_token", VStr "OLD")] None
                   (Ok (ticket_body "TICKET" 7200))])
    by (vm_compute; reflexivity).
  split; [exact H|]. split; [vm_compute; reflexivity|].
  rewrite H. simpl. intros [_ [_ [Hpending _]]]. now apply Hpending.
Qed.

(** The three ways through [get_access_token]. *)
Lemma get_access_token_cases force env s :
  get_access_token force env s
  = match cache_is_fresh force (_token (client s))
            (token_expires_at (client s)) env s with
    | (Ok true, s0) => (Ok (_token (client s)), s0)
    | (Ok false, s0) => bind grant_token store_access_token env s0
    | (Raise e, s0) => (Raise e, s0)
    end.
Proof.
  unfold get_access_token, get_client. unfold bind at 1 2.
  destruct (cache_is_fresh _ _ _ env s) as [[[|]|e] s0]; reflexivity.
Qed.

(** A forced [get_access_token] calls [grant_token] once. *)
Lemma forced_fetch_is_made env s :
  grant_calls (snd (get_access_token true env s)) = S (grant_calls s).
Proof.
  rewrite get_access_token_cases, cache_is_fresh_skipped by now left.
  unfold bind, grant_token.
  destruct (grant_token_reply env (grant_calls s)) as [json|e];
    [|reflexivity].
  match goal with
  | |- context [store_access_token json env ?s0] =>
      destruct (store_access_token_steps json env s0) as (Hg & _)
  end.
  rewrite Hg. reflexivity.
Qed.

Lemma refreshed_app strict ob t1 t2 :
  refreshed strict ob (t1 ++ t2)
  <-> refreshed strict ob t1 /\ refreshed strict (final strict ob t1) t2.
Proof.
  revert ob. induction t1 as [|ev t1 IH]; intros ob; simpl; [tauto|].
  destruct ev; simpl; rewrite ?IH; tauto.
Qed.

Lemma final_app strict ob t1 t2 :
  final strict ob (t1 ++ t2) = final strict (final strict ob t1) t2.
Proof.
  revert ob. induction t1 as [|ev t1 IH]; intros ob; simpl; [reflexivity|].
  destruct ev; simpl; apply IH.
Qed.

Lemma tracks_bind {A B} (m : M A) (k : A -> M B) pre mid post :
  tracks m pre mid ->
  (forall a, tracks (k a) (fun ob s => mid ob s (Ok a)) post) ->
  (forall ob s e, mid ob s (Raise e) -> post ob s (Raise e)) ->
  tracks (bind m k) pre post.
Proof.
  intros Hm Hk He env s ob Hpre.
  destruct (Hm env s ob Hpre) as (tr1 & Ht1 & Hr1 & Hmid).
  unfold bind. destruct (m env s) as [[a|e] s1]; simpl in *.
  - destruct (Hk a env s1 (final false ob tr1) Hmid) as (tr2 & Ht2 & Hr2 & Hp).
    exists (tr1 ++ tr2). rewrite Ht2, Ht1, app_assoc.
    split; [reflexivity|]. rewrite refreshed_app, final_app. auto.
  - exists tr1. auto.
Qed.

Lemma getitem_setitem {V} (d : Py.dict V) k v :
  Py.getitem (Py.setitem d k v) k = Some v.
Proof.
  induction d as [|[k' v'] d IH]; simpl.
  - now rewrite String.eqb_refl.
  - destruct (String.eqb k k') eqn:E; simpl; rewrite ?String.eqb_refl, ?E;
      auto.
Qed.

(** What [store_access_token] does with the answer of a fetch that
    brought a token: the token is in the cache from then on, and is
    what the call returns if it returns. *)
Lemma store_access_token_token json env s tok :
  fetched (Ok json) = Some tok ->
  _token (client (snd (store_access_token json env s))) = tok
  /\ forall v, fst (store_access_token json env s) = Ok v -> v = tok.
Proof.
  unfold fetched. destruct json as [d|]; [|discriminate]. intros Hk.
  destruct (store_access_token_writes d tok env s Hk) as (Htok & _ & _).
  split; [exact Htok|]. revert Htok.
  store_cases.
  destruct (py_int _); simpl; [|discriminate].
  destruct (Py.getitem d "expires_in") as [[]|]; simpl;
    intros Htok v Hv; inversion Hv; subst; reflexivity.
Qed.

Arguments fetched : simpl never.

(** [get_access_token]: called with [force] to discharge a pending
    refresh, or without it between two attempts. *)
Lemma get_access_token_tracks force :
  tracks (get_access_token force)
    (fun ob s => if force then ob = Pending else settled ob s)
    (fun ob s r =>
       settled ob s /\ forall v t, r = Ok v -> ob = Fresh t -> v = t).
Proof.
  intros env s ob Hpre. rewrite get_access_token_cases.
  pose proof (cache_is_fresh_state force (_token (client s))
                (token_expires_at (client s)) env s) as Hs.
  assert (Hforce : force = true ->
            cache_is_fresh force (_token (client s))
              (token_expires_at (client s)) env s = (Ok false, s))
    by (intros ->; apply cache_is_fresh_skipped; now left).
  destruct (cache_is_fresh _ _ _ env s) as [[[|]|e] s0] eqn:Hc; simpl in Hs.
  - (* the cache answers *)
    destruct force; [specialize (Hforce eq_refl); discriminate|].
    exists []. simpl. rewrite app_nil_r.
    assert (Hcl : client s0 = client s /\ trace s0 = trace s)
      by (destruct Hs as [->| ->]; split; reflexivity).
    destruct Hcl as [Hcl Htr]. split; [exact Htr|]. split; [exact I|].
    split.
    + destruct ob; simpl in *; auto. now rewrite Hcl.
    + intros v t Hv Hob. inversion Hv; subst. exact Hpre.
  - (* the fetch *)
    assert (Hcl : trace s0 = trace s)
      by (destruct Hs as [->| ->]; reflexivity).
    unfold bind, grant_token.
    set (r := grant_token_reply env (grant_calls s0)).
    set (s1 := record (EvGrant r) _).
    exists [EvGrant r]. simpl.
    assert (Hob : ob <> Nothing ->
              forall tok, fetched r = Some tok ->
                after_grant false ob r = Fresh tok)
      by (intros Hn tok Hf; unfold after_grant; rewrite Hf;
          destruct ob; congruence).
    assert (Hnone : fetched r = None -> after_grant false ob r = Nothing)
      by (intros Hf; unfold after_grant; rewrite Hf; destruct ob; reflexivity).
    assert (Hnothing : ob = Nothing -> after_grant false ob r = Nothing)
      by (intros ->; unfold after_grant; destruct (fetched r); reflexivity).
    destruct r as [json|e] eqn:Hr.
    + destruct (store_access_token_steps json env s1) as (_ & _ & Ht).
      rewrite Ht. subst s1. simpl. rewrite Hcl. split; [reflexivity|].
      split; [exact I|].
      destruct (fetched (Ok json)) as [tok|] eqn:Hf.
      * destruct (store_access_token_token json env
                    (record (EvGrant (Ok json))
                       (granted
                          (update_client (left_by_grant_token env s0) s0)))
                    tok Hf) as [Htok Hv].
        destruct ob as [| |t0].
        -- rewrite (Hnothing eq_refl). simpl. split; [exact I|]. discriminate.
        -- rewrite (Hob ltac:(discriminate) tok eq_refl). simpl.
           split; [exact Htok|]. intros v t Hres Ht'. inversion Ht'; subst.
           now apply Hv.
        -- rewrite (Hob ltac:(discriminate) tok eq_refl). simpl.
           split; [exact Htok|]. intros v t Hres Ht'. inversion Ht'; subst.
           now apply Hv.
      * rewrite (Hnone eq_refl). simpl. split; [exact I|]. discriminate.
    + subst s1. simpl. rewrite Hcl. split; [reflexivity|]. split; [exact I|].
      rewrite (Hnone eq_refl). simpl. split; [exact I|]. discriminate.
  - (* the test of the cache raises *)
    destruct force; [specialize (Hforce eq_refl); discriminate|].
    exists []. simpl. rewrite app_nil_r.
    assert (Hcl : client s0 = client s /\ trace s0 = trace s)
      by (destruct Hs as [->| ->]; split; reflexivity).
    destruct Hcl as [Hcl Htr]. split; [exact Htr|]. split; [exact I|].
    split; [|discriminate].
    destruct ob; simpl in *; auto. now rewrite Hcl.
Qed.

(** The [params] that [send] puts on the wire. *)
Lemma prepare_tracks kw :
  carries_client_token kw = true ->
  tracks (prepare kw) settled
    (fun ob s r =>
       settled ob s
       /\ forall kw', r = Ok kw' ->
            allowed ob (match params kw' with Some p => p | None => [] end)).
Proof.
  intros Hkw env s ob Hpre. unfold carries_client_token in Hkw.
  destruct (get_access_token_tracks false env s ob Hpre)
    as (tr & Htr & Href & Hset & Hv).
  unfold prepare, token, bind, ret.
  destruct (params kw) as [p|].
  - apply andb_true_iff in Hkw. destruct Hkw as [Hin Hflag].
    rewrite Hin, Hflag.
    destruct (get_access_token false env s) as [[v|e] s']; simpl in *;
      exists tr; repeat split; auto; try discriminate.
    intros kw' Hk. inversion Hk; subst; simpl.
    destruct (final false ob tr) eqn:Hf; simpl in *; auto.
    rewrite getitem_setitem. f_equal. eauto.
  - destruct (get_access_token false env s) as [[v|e] s']; simpl in *;
      exists tr; repeat split; auto; try discriminate.
    intros kw' Hk. inversion Hk; subst; simpl.
    destruct (final false ob tr) eqn:Hf; simpl in *; auto.
    f_equal. eauto.
Qed.

Lemma send_tracks method url kw :
  tracks (send method url kw)
    (fun ob s =>
       settled ob s
       /\ allowed ob (match params kw with Some p => p | None => [] end))
    (fun ob s r =>
       match r with
       | Ok json => ob = after_http (Ok json)
       | Raise _ => settled ob s
       end).
Proof.
  intros env s ob [Hset Hal]. unfold send.
  destruct (timeout kw), (oauth2_access_token kw);
    try solve [exists []; simpl; rewrite app_nil_r; auto].
  unfold requests_request.
  set (r := http_reply env (http_calls s)).
  pose (p := match params kw with Some p => p | None => [] end).
  exists (EvHttp method url p (data kw) r :: nil).
  simpl. repeat split; auto.
  destruct r; simpl; [reflexivity|exact I].
Qed.

Lemma exchange_tracks method url kw :
  carries_client_token kw = true ->
  tracks (exchange method url kw) settled
    (fun ob s r =>
       match r with
       | Ok json => ob = after_http (Ok json)
       | Raise _ => settled ob s
       end).
Proof.
  intros Hkw. unfold exchange.
  eapply tracks_bind; [apply (prepare_tracks kw Hkw)| |].
  - intros kw' env s ob [Hset Hal].
    apply (send_tracks method url kw' env s ob). split; [exact Hset|].
    apply Hal. reflexivity.
  - intros ob s e [Hset _]. exact Hset.
Qed.

(** A body that says the credential is invalid makes the handler fetch
    before the error leaves the attempt. *)
Lemma on_body_tracks json :
  tracks (on_body json) (fun ob s => ob = after_http (Ok json))
    (fun ob s r => settled ob s).
Proof.
  intros env s ob Hob. unfold on_body, except_AccessTokenInvalid, bind, lift.
  unfold after_http, invalid in Hob.
  destruct (check_error json) as [checked|e] eqn:Hc; simpl.
  - subst ob. exists []. rewrite app_nil_r.
    destruct checked; simpl; auto.
  - destruct e;
      try solve [subst ob; exists []; rewrite app_nil_r; simpl; auto].
    destruct (get_access_token_tracks true env s ob Hob)
      as (tr & Htr & Href & Hset & _).
    exists tr.
    destruct (get_access_token true env s) as [[v|e] s']; simpl in *; auto.
Qed.

Lemma attempt_tracks method url kw :
  carries_client_token kw = true ->
  tracks (attempt method url kw) settled (fun ob s r => settled ob s).
Proof.
  intros Hkw env s ob Hpre.
  change (attempt method url kw env s)
    with (request_body method url kw env (record EvCall s)).
  assert (Hbody : tracks (request_body method url kw) settled
                    (fun ob s r => settled ob s)).
  { unfold request_body.
    eapply tracks_bind; [apply (exchange_tracks method url kw Hkw)| |].
    - intros json. apply on_body_tracks.
    - intros ob' s' e H. exact H. }
  destruct (Hbody env (record EvCall s) ob) as (tr & Htr & Href & Hset).
  { destruct ob; simpl in *; auto. }
  exists (EvCall :: tr). simpl in *.
  rewrite Htr, <- app_assoc. repeat split; auto.
  intros ->. exact Hpre.
Qed.

Lemma retry_loop_tracks {A} (fn : M A) n p :
  tracks fn settled (fun ob s r => settled ob s) ->
  tracks (retry_loop n p fn) settled (fun ob s r => settled ob s).
Proof.
  intros Hfn. induction n as [|n IH]; intros env s ob Hpre; simpl;
    destruct (Hfn env s ob Hpre) as (tr & Htr & Href & Hset);
    destruct (fn env s) as [[a|e] s']; simpl in *;
    try (exists tr; auto; fail);
    destruct (p e); try (exists tr; auto; fail).
  destruct (IH env s' (final false ob tr) Hset) as (tr2 & Htr2 & Href2 & Hset2).
  exists (tr ++ tr2). rewrite Htr2, Htr, app_assoc.
  split; [reflexivity|]. rewrite refreshed_app, final_app. auto.
Qed.

(** What an attempt raises after a response that classifies as an
    invalid credential: the error of the forced fetch, if that raises,
    and [AccessTokenInvalid] once the fetch has returned. *)
Lemma attempt_after_invalid_credential method url kw env s1 json s2
    errcode errmsg :
  exchange method url kw env (record EvCall s1) = (Ok json, s2) ->
  check_error json = Raise (AccessTokenInvalid errcode errmsg) ->
  attempt method url kw env s1
  = match get_access_token true env s2 with
    | (Ok _, s3) => (Raise (AccessTokenInvalid errcode errmsg), s3)
    | (Raise e, s3) => (Raise e, s3)
    end.
Proof.
  intros Hex Hcheck.
  change (attempt method url kw env s1)
    with (request_body method url kw env (record EvCall s1)).
  unfold request_body. rewrite (bind_ok _ _ _ _ _ _ Hex).
  unfold on_body, except_AccessTokenInvalid, bind, lift, raise.
  rewrite Hcheck.
  destruct (get_access_token true env s2) as [[v|e] s3]; reflexivity.
Qed.

(** C5.  In every execution of a [request] that carries the
    access token of the client: no attempt begins while a refresh is
    pending, that is, a response that classifies as an invalid
    credential is followed by a forced fetch before the next attempt,
    and none is pending when the execution ends; when a fetch brings a
    token, the next HTTP call of the execution carries the token that
    the latest fetch brought; when it brings none, nothing is promised.
    An attempt whose response classifies as an invalid credential
    raises [AccessTokenInvalid] when the forced fetch returns, in the
    state that the fetch left, and raises the error of the forced fetch
    in place of it when the fetch raises; if that error is not one that
    is retried, it is the error that [request] raises. *)
Theorem invalid_credential_triggers_refresh env s method url kw :
  carries_client_token kw = true ->
  (exists tr,
     trace (snd (request method url kw env s)) = trace s ++ tr
     /\ refreshed false Nothing tr
     /\ final false Nothing tr <> Pending)
  /\ (forall s1 json s2 errcode errmsg,
        exchange method url kw env (record EvCall s1) = (Ok json, s2) ->
        check_error json = Raise (AccessTokenInvalid errcode errmsg) ->
        (forall v s3,
           get_access_token true env s2 = (Ok v, s3) ->
           attempt method url kw env s1
           = (Raise (AccessTokenInvalid errcode errmsg), s3))
        /\ (forall e s3,
              get_access_token true env s2 = (Raise e, s3) ->
              attempt method url kw env s1 = (Raise e, s3))
        /\ grant_calls (snd (attempt method url kw env s1))
           = S (grant_calls s2))
  /\ (forall k s1 json s2 errcode errmsg e s3,
        (k <= 2)%nat ->
        failed_attempts env (attempt method url kw) k s s1 ->
        exchange method url kw env (record EvCall s1) = (Ok json, s2) ->
        check_error json = Raise (AccessTokenInvalid errcode errmsg) ->
        get_access_token true env s2 = (Raise e, s3) ->
        retry_exception e = false ->
        request method url kw env s = (Raise e, s3)).
Proof.
  intros Hkw. split; [|split].
  - destruct (retry_loop_tracks (attempt method url kw) 2 retry_exception
                (attempt_tracks method url kw Hkw) env s Nothing I)
      as (tr & Htr & Href & Hset).
    exists tr. split; [exact Htr|]. split; [exact Href|].
    intros Hp. rewrite Hp in Hset. exact Hset.
  - intros s1 json s2 errcode errmsg Hex Hcheck.
    rewrite (attempt_after_invalid_credential _ _ _ _ _ _ _ _ _ Hex Hcheck).
    pose proof (forced_fetch_is_made env s2) as Hg.
    destruct (get_access_token true env s2) as [[v|e] s3]; simpl in Hg.
    + split; [|split]; [intros v' s3' H; inversion H; reflexivity
                       |discriminate|exact Hg].
    + split; [|split]; [discriminate
                       |intros e' s3' H; inversion H; reflexivity|exact Hg].
  - intros k s1 json s2 errcode errmsg e s3 Hk Hfail Hex Hcheck Hget Hno.
    pose proof (attempt_after_invalid_credential _ _ _ _ _ _ _ _ _ Hex Hcheck)
      as Hatt.
    rewrite Hget in Hatt.
    unfold request, retry. change (3 - 1)%nat with 2%nat.
    rewrite (retry_loop_after_failures _ env 2 k s s1 Hfail Hk).
    destruct (2 - k)%nat; simpl; rewrite Hatt, Hno; reflexivity.
Qed.

Lemma invalid_credential_triggers_refresh_witness :
  carries_client_token no_kwargs = true
  /\ (exists tr,
        trace (snd refreshed_run) = trace cache_120 ++ tr
        /\ refreshed false Nothing tr
        /\ final false Nothing tr <> Pending)
  /\ exists s2 s3,
       exchange "get" "/" no_kwargs world_refresh (record EvCall cache_120)
       = (Ok body_invalid_credential, s2)
       /\ check_error body_invalid_credential
          = Raise (AccessTokenInvalid (VInt 40001) (VStr "invalid credential"))
       /\ get_access_token true world_refresh s2 = (Ok (VStr "NEW"), s3)
       /\ attempt "get" "/" no_kwargs world_refresh cache_120
          = (Raise (AccessTokenInvalid (VInt 40001)
                      (VStr "invalid credential")), s3).
Proof.
  destruct (invalid_credential_triggers_refresh world_refresh cache_120
              "get" "/" no_kwargs eq_refl) as (Htrace & Hattempt & _).
  split; [reflexivity|]. split; [exact Htrace|].
  pose (x := exchange "get" "/" no_kwargs world_refresh
               (record EvCall cache_120)).
  assert (Hx : x = (Ok body_invalid_credential, snd x))
    by (vm_compute; reflexivity).
  pose (y := get_access_token true world_refresh (snd x)).
  assert (Hy : y = (Ok (VStr "NEW"), snd y)) by (vm_compute; reflexivity).
  exists (snd x), (snd y).
  split; [exact Hx|]. split; [reflexivity|]. split; [exact Hy|].
  exact (proj1 (Hattempt cache_120 body_invalid_credential (snd x)
                  (VInt 40001) (VStr "invalid credential") Hx eq_refl)
               (VStr "NEW") (snd y) Hy).
Defined.

(** A forced fetch that fails in transport ends the request with its
    error: there is no second attempt. *)
Example request_ends_with_the_error_of_the_fetch :
  fst (request "get" "/" no_kwargs world_refetch_breaks cache_120)
  = Raise RequestException
  /\ trace (snd (request "get" "/" no_kwargs world_refetch_breaks cache_120))
     = [EvCall;
        EvHttp "get" "/" [("access_token", VStr "OLD")] None
          (Ok body_invalid_credential);
        EvGrant (Raise RequestException)].
Proof. split; vm_compute; reflexivity. Qed.

(** The run behind the witness: the second attempt sends the token that
    the forced fetch brought. *)
Example request_sends_refreshed_token :
  trace (snd refreshed_run)
  = [EvCall;
     EvHttp "get" "/" [("access_token", VStr "OLD")] None
       (Ok body_invalid_credential);
     EvGrant (Ok (Some (token_body "NEW" 7200)));
     EvCall;
     EvHttp "get" "/" [("access_token", VStr "NEW")] None
       (Ok (ticket_body "TICKET" 7200))]
  /\ fst refreshed_run = Ok (Some (ticket_body "TICKET" 7200))
  /\ refreshed true Nothing (trace (snd refreshed_run)).
Proof.
  split; [vm_compute; reflexivity|]. split; [vm_compute; reflexivity|].
  vm_compute. repeat split; auto; discriminate.
Qed.

(* ================================================================= *)
(** * Further properties of the code *)

(** ** The shape of a signature *)

Lemma string_length_append (a b : string) :
  String.length (a ++ b) = (String.length a + String.length b)%nat.
Proof. induction a as [|c a IH]; simpl; [reflexivity|now rewrite IH]. Qed.

Lemma list_ascii_of_string_append (a b : string) :
  list_ascii_of_string (a ++ b)
  = list_ascii_of_string a ++ list_ascii_of_string b.
Proof. induction a as [|c a IH]; simpl; [reflexivity|now rewrite IH]. Qed.

Lemma hex_digit_lower (x : N) : is_lower_hex (SHA1.hex_digit (N.land x 0xF)) = true.
Proof.
  assert (H : (N.land x 0xF < 16)%N).
  { change 0xF%N with (N.ones 4). rewrite N.land_ones.
    apply N.mod_lt. discriminate. }
  remember (N.land x 0xF) as d eqn:Hd. clear Hd.
  rewrite <- (N2Nat.id d). assert (Hn : (N.to_nat d < 16)%nat) by lia.
  clear H. remember (N.to_nat d) as n eqn:En. clear En d.
  do 16 (destruct n as [|n]; [reflexivity|]). lia.
Qed.

Lemma hex_word_length n x : String.length (SHA1.hex_word n x) = n.
Proof. induction n as [|n IH]; simpl; [reflexivity|now rewrite IH]. Qed.

Lemma hex_word_lower n x c :
  In c (list_ascii_of_string (SHA1.hex_word n x)) -> is_lower_hex c = true.
Proof.
  induction n as [|n IH]; simpl; [contradiction|].
  intros [<-|H]; [apply hex_digit_lower|now apply IH].
Qed.

(** X1.  Whatever is signed, [get_signature] returns forty characters,
    each a digit or a letter from [a] to [f]. *)
Theorem get_signature_is_lower_hex (sign_param : Py.dict string) :
  String.length (get_signature sign_param) = 40%nat
  /\ forall c, In c (list_ascii_of_string (get_signature sign_param)) ->
               is_lower_hex c = true.
Proof.
  unfold get_signature, SHA1.sha1_hex, SHA1.hexdigest.
  destruct (SHA1.sha1 _) as [[[[h0 h1] h2] h3] h4]. split.
  - rewrite !string_length_append, !hex_word_length. reflexivity.
  - intros c. rewrite !list_ascii_of_string_append, !in_app_iff.
    intros [H|[H|[H|[H|H]]]]; eapply hex_word_lower; exact H.
Qed.

(** ** get_random_string *)

Lemma random_chars_length seq draws i n :
  String.length (random_chars seq draws i n) = n.
Proof.
  revert i. induction n as [|n IH]; intros i; simpl;
    [reflexivity|now rewrite IH].
Qed.

Lemma random_chars_in seq draws i n c :
  seq <> [] ->
  In c (list_ascii_of_string (random_chars seq draws i n)) -> In c seq.
Proof.
  intros Hne. revert i. induction n as [|n IH]; intros i; simpl;
    [contradiction|].
  intros [<-|H]; [|now apply (IH (S i))].
  unfold choice. apply nth_In. apply Nat.mod_upper_bound.
  destruct seq; [congruence|discriminate].
Qed.

(** X2.  [get_random_string(length, digits)] has [length] characters,
    none for a length that is not positive; each is an ASCII letter or,
    when [digits] is set, a letter or a digit, whatever [random.choice]
    picks. *)
Theorem get_random_string_shape (length : Z) (digits : bool)
    (draws : nat -> nat) :
  String.length (get_random_string length digits draws) = Z.to_nat length
  /\ ((length <= 0)%Z -> get_random_string length digits draws = EmptyString)
  /\ forall c,
       In c (list_ascii_of_string (get_random_string length digits draws)) ->
       In c (list_ascii_of_string ascii_letters)
       \/ (digits = true /\ In c (list_ascii_of_string digits_chars)).
Proof.
  unfold get_random_string. split; [apply random_chars_length|]. split.
  - intros Hle. replace (Z.to_nat length) with 0%nat by lia. reflexivity.
  - intros c Hc. apply random_chars_in in Hc.
    + destruct digits; [|now left].
      rewrite list_ascii_of_string_append, in_app_iff in Hc.
      destruct Hc as [Hc|Hc]; [now left|right; now split].
    + destruct digits; discriminate.
Qed.

(** ** Names that differ in case only *)

Lemma lower_ascii_idempotent c :
  Py.lower_ascii (Py.lower_ascii c) = Py.lower_ascii c.
Proof. destruct c as [[] [] [] [] [] [] [] []]; reflexivity. Qed.

Lemma lower_idempotent s : Py.lower (Py.lower s) = Py.lower s.
Proof.
  induction s as [|c s IH]; simpl; [reflexivity|].
  now rewrite lower_ascii_idempotent, IH.
Qed.

Lemma lower_names_idempotent m : lower_names (lower_names m) = lower_names m.
Proof.
  unfold lower_names. rewrite map_map. apply map_ext.
  intros [k v]. simpl. now rewrite lower_idempotent.
Qed.

Lemma keys_lower_names m : Py.keys (lower_names m) = map Py.lower (Py.keys m).
Proof. unfold Py.keys, lower_names. now rewrite !map_map. Qed.

Lemma str_le_refl s : Py.str_le s s = true.
Proof. destruct (String.leb_total s s); assumption. Qed.

Lemma lower_names_well_formed m :
  Py.well_formed m -> lower_keeps_order m -> Py.well_formed (lower_names m).
Proof.
  unfold Py.well_formed. intros Hnd Hord. rewrite keys_lower_names.
  apply NoDup_map_NoDup_ForallPairs; [|exact Hnd].
  intros k1 k2 H1 H2 Heq. apply String.leb_antisym.
  - change (Py.str_le k1 k2 = true). rewrite <- Hord, Heq by assumption.
    apply str_le_refl.
  - change (Py.str_le k2 k1 = true). rewrite <- Hord, Heq by assumption.
    apply str_le_refl.
Qed.

Lemma lower_names_keeps_order m : lower_keeps_order (lower_names m).
Proof.
  intros k1 k2. rewrite keys_lower_names, !in_map_iff.
  intros (a & <- & _) (b & <- & _). now rewrite !lower_idempotent.
Qed.

Lemma get_signature_lower_names m :
  Py.well_formed m -> lower_keeps_order m ->
  get_signature (lower_names m) = get_signature m.
Proof.
  intros Hwf Hord.
  rewrite (get_signature_refines_spec m Hwf Hord).
  rewrite (get_signature_refines_spec (lower_names m)
             (lower_names_well_formed m Hwf Hord)
             (lower_names_keeps_order m)).
  unfold spec_sign. now rewrite lower_names_idempotent.
Qed.

(** X3.  Two mappings whose names compare the same before and after
    lower-casing, and that hold the same entries once the names are
    lower-cased, in whatever order, sign to the same digest. *)
Theorem get_signature_same_lower_names (m1 m2 : Py.dict string) :
  Py.well_formed m1 -> lower_keeps_order m1 ->
  Py.well_formed m2 -> lower_keeps_order m2 ->
  Permutation (lower_names m1) (lower_names m2) ->
  get_signature m1 = get_signature m2.
Proof.
  intros Hwf1 Hord1 Hwf2 Hord2 Hp.
  rewrite <- (get_signature_lower_names m1 Hwf1 Hord1).
  rewrite <- (get_signature_lower_names m2 Hwf2 Hord2).
  apply get_signature_insertion_order; [|exact Hp].
  now apply lower_names_well_formed.
Qed.

Lemma get_signature_same_lower_names_witness :
  Py.well_formed params_capitals /\ lower_keeps_order params_capitals
  /\ Py.well_formed params_lower_case /\ lower_keeps_order params_lower_case
  /\ Permutation (lower_names params_capitals) (lower_names params_lower_case)
  /\ get_signature params_capitals = get_signature params_lower_case.
Proof.
  assert (Hwf1 : Py.well_formed params_capitals)
    by (repeat constructor; simpl; intuition discriminate).
  assert (Hwf2 : Py.well_formed params_lower_case)
    by (repeat constructor; simpl; intuition discriminate).
  assert (Hord1 : lower_keeps_order params_capitals).
  { intros k1 k2 H1 H2. simpl in H1, H2.
    repeat (destruct H1 as [<-|H1]; [|]); try contradiction;
      repeat (destruct H2 as [<-|H2]; [|]); try contradiction; reflexivity. }
  assert (Hord2 : lower_keeps_order params_lower_case).
  { intros k1 k2 H1 H2. simpl in H1, H2.
    repeat (destruct H1 as [<-|H1]; [|]); try contradiction;
      repeat (destruct H2 as [<-|H2]; [|]); try contradiction; reflexivity. }
  assert (Hp : Permutation (lower_names params_capitals)
                 (lower_names params_lower_case)) by apply perm_swap.
  split; [exact Hwf1|]. split; [exact Hord1|]. split; [exact Hwf2|].
  split; [exact Hord2|]. split; [exact Hp|].
  exact (get_signature_same_lower_names _ _ Hwf1 Hord1 Hwf2 Hord2 Hp).
Defined.

(** ** check_error on codes that are not numbers *)

(** X4.  An [errcode] that is neither an [int] nor a [bool] differs from
    0 and from 40001: with an [errmsg] beside it, [check_error] raises
    [ClientException], also for the string ["0"]. *)
Theorem check_error_errcode_not_a_number json errcode errmsg :
  Py.getitem json "errcode" = Some errcode ->
  not_a_number errcode ->
  Py.getitem json "errmsg" = Some errmsg ->
  check_error json = Raise (ClientException errcode errmsg).
Proof.
  intros Hc Hn Hm. unfold check_error. rewrite Hc.
  destruct errcode; simpl in *; try contradiction; rewrite Hm; reflexivity.
Qed.

Lemma check_error_errcode_not_a_number_witness :
  Py.getitem body_errcode_string_zero "errcode" = Some (VStr "0")
  /\ not_a_number (VStr "0")
  /\ Py.getitem body_errcode_string_zero "errmsg" = Some (VStr "ok")
  /\ check_error body_errcode_string_zero
     = Raise (ClientException (VStr "0") (VStr "ok")).
Proof.
  repeat (split; [first [reflexivity | exact I]|]).
  exact (check_error_errcode_not_a_number body_errcode_string_zero
           (VStr "0") (VStr "ok") eq_refl I eq_refl).
Defined.

(** ** More on the credential cache *)

(** X5.  [get_access_token(force=True)] calls [grant_token] exactly once,
    whatever the cache holds and however long it is still good, and
    makes no HTTP call of its own. *)
Theorem forced_refresh_always_fetches env s :
  grant_calls (snd (get_access_token true env s)) = S (grant_calls s)
  /\ http_calls (snd (get_access_token true env s)) = http_calls s
  /\ trace (snd (get_access_token true env s))
     = trace s ++ [EvGrant (grant_token_reply env (grant_calls s))].
Proof.
  rewrite get_access_token_cases, cache_is_fresh_skipped by now left.
  unfold bind, grant_token.
  destruct (grant_token_reply env (grant_calls s)) as [json|e] eqn:Hr;
    [|simpl; auto].
  match goal with
  | |- context [store_access_token json env ?s0] =>
      destruct (store_access_token_steps json env s0) as (Hg & Hh & Ht)
  end.
  rewrite Hg, Hh, Ht. simpl. auto.
Qed.

(** The test of the cache on a value that counts as true and an
    integer expiry. *)
Lemma cache_is_fresh_tested cached expires_at env s :
  truthy cached = true ->
  cache_is_fresh false cached (VInt expires_at) env s
  = match int_sub_float expires_at (time_time env (clock_reads s)) with
    | Ok remaining => (Ok (more_than_60 remaining), tick s)
    | Raise e => (Raise e, tick s)
    end.
Proof.
  intros Ht.
  unfold cache_is_fresh, bind, time, expires_in_more_than_60, lift, ret.
  rewrite Ht. simpl. destruct (int_sub_float _ _); reflexivity.
Qed.



(** X6.  A token that a fetch has just stored is served from the cache
    by the next [get_access_token(force=False)] when
    [token_expires_at - now], as Python computes it from the stored
    expiry and the next reading of the clock, is more than 60, without
    a call to the platform; otherwise that next call fetches again. *)
Theorem fetched_token_read_back env s d access_token expires_in seconds :
  grant_token_reply env (grant_calls s) = Ok (Some d) ->
  Py.getitem d "access_token" = Some access_token ->
  truthy access_token = true ->
  Py.getitem d "expires_in" = Some (VInt expires_in) ->
  py_int (time_time env (clock_reads s)) = Ok seconds ->
  let s1 := snd (get_access_token true env s) in
  let expires_at := (seconds + expires_in)%Z in
  let now := time_time env (clock_reads s1) in
  token_expires_at (client s1) = VInt expires_at
  /\ (forall remaining,
        int_sub_float expires_at now = Ok remaining ->
     more_than_60 remaining = true ->
        get_access_token false env s1 = (Ok access_token, tick s1))
  /\ (forall remaining,
        int_sub_float expires_at now = Ok remaining ->
        more_than_60 remaining = false ->
        grant_calls (snd (get_access_token false env s1))
        = S (grant_calls s1)).
Proof.
  intros Hr Htok Htruthy Httl Hn.
  assert (H1 : get_access_token true env s
               = (Ok access_token,
                  update_client
                    (set_token_expires_at (VInt (seconds + expires_in)))
                    (tick (update_client (set_token access_token)
                             (snd (grant_token env s)))))).
  { rewrite get_access_token_cases, cache_is_fresh_skipped by now left.
    assert (Hg : grant_token env s = (Ok (Some d), snd (grant_token env s)))
      by (unfold grant_token; rewrite Hr; reflexivity).
    rewrite (bind_ok _ _ _ _ _ _ Hg).
    now apply store_access_token_ok. }
  rewrite H1. cbv zeta.
  set (s1 := update_client _ _).
  assert (Hc : token_expires_at (client s1) = VInt (seconds + expires_in)
               /\ _token (client s1) = access_token) by (split; reflexivity).
  destruct Hc as [Hexp Htok1]. simpl snd. split; [exact Hexp|].
  split; intros remaining Hleft Hgt.
  - rewrite get_access_token_cases, Hexp, Htok1,
      (cache_is_fresh_tested _ _ _ _ Htruthy), Hleft, Hgt.
    reflexivity.
  - rewrite get_access_token_cases, Hexp, Htok1,
      (cache_is_fresh_tested _ _ _ _ Htruthy), Hleft, Hgt.
    unfold bind, grant_token.
    destruct (grant_token_reply env (grant_calls (tick s1))) as [json|e];
      [|reflexivity].
    match goal with
    | |- context [store_access_token json env ?s0] =>
        destruct (store_access_token_steps json env s0) as (Hg & _)
    end.
    rewrite Hg. reflexivity.
Qed.

Lemma fetched_token_read_back_witness :
  grant_token_reply world_1000 (grant_calls cache_30)
  = Ok (Some (token_body "NEW" 7200))
  /\ Py.getitem (token_body "NEW" 7200) "access_token" = Some (VStr "NEW")
  /\ truthy (VStr "NEW") = true
  /\ Py.getitem (token_body "NEW" 7200) "expires_in" = Some (VInt 7200)
  /\ py_int (time_time world_1000 (clock_reads cache_30)) = Ok 1000%Z
  /\ get_access_token false world_1000
       (snd (get_access_token true world_1000 cache_30))
     = (Ok (VStr "NEW"),
        tick (snd (get_access_token true world_1000 cache_30))).
Proof.
  repeat (split; [reflexivity|]).
  apply (proj1 (proj2 (fetched_token_read_back world_1000 cache_30
                         (token_body "NEW" 7200) (VStr "NEW") 7200 1000
                         eq_refl eq_refl eq_refl eq_refl eq_refl))
               (double 7200 0));
    vm_compute; reflexivity.
Defined.

(** A token stored at [0.5] with [expires_in = 61] expires at 61; at
    [1 - 2^-53] the difference rounds to [60.0] and the next call
    fetches again. *)
Example fetched_token_at_the_margin :
  token_expires_at
    (client (snd (get_access_token true world_half_second (initial init_app))))
  = VInt 61
  /\ grant_calls
       (snd (get_access_token false world_half_second
               (snd (get_access_token true world_half_second
                       (initial init_app)))))
     = 2%nat.
Proof. split; vm_compute; reflexivity. Qed.





(** X9.  Whenever [get_jsapi_ticket] stores a ticket that
    [self.jsapi_ticket()] brought, with an integer [expires_in], it
    returns the access token that the client holds at that moment, not
    the ticket. *)
Theorem get_jsapi_ticket_refresh_returns_token force env s s0 d ticket
    expires_in seconds s1 :
  cache_is_fresh force (_jsapi_ticket (client s))
    (jsapi_ticket_expires_at (client s)) env s = (Ok false, s0) ->
  jsapi_ticket env s0 = (Ok (Some d), s1) ->
  Py.getitem d "ticket" = Some ticket ->
  Py.getitem d "expires_in" = Some (VInt expires_in) ->
  py_int (time_time env (clock_reads s1)) = Ok seconds ->
  fst (get_jsapi_ticket force env s) = Ok (_token (client s1))
  /\ _jsapi_ticket (client (snd (get_jsapi_ticket force env s))) = ticket
  /\ _token (client (snd (get_jsapi_ticket force env s)))
     = _token (client s1).
Proof.
  intros Hc Hfetch Htkt Httl Hn.
  rewrite (get_jsapi_ticket_at_fetch force env s s0 Hc),
    (bind_ok _ _ _ _ _ _ Hfetch),
    (store_jsapi_ticket_ok d ticket expires_in seconds) by assumption.
  repeat split.
Qed.

Lemma get_jsapi_ticket_refresh_returns_token_witness :
  exists s1,
    cache_is_fresh false (_jsapi_ticket (client cache_120))
      (jsapi_ticket_expires_at (client cache_120)) world_1000 cache_120
    = (Ok false, cache_120)
    /\ jsapi_ticket world_1000 cache_120
       = (Ok (Some (ticket_body "TICKET" 7200)), s1)
    /\ fst (get_jsapi_ticket false world_1000 cache_120) = Ok (VStr "OLD")
    /\ _jsapi_ticket
         (client (snd (get_jsapi_ticket false world_1000 cache_120)))
       = VStr "TICKET".
Proof.
  pose (x := jsapi_ticket world_1000 cache_120).
  assert (Hx : x = (Ok (Some (ticket_body "TICKET" 7200)), snd x))
    by (vm_compute; reflexivity).
  exists (snd x). split; [reflexivity|]. split; [exact Hx|].
  destruct (get_jsapi_ticket_refresh_returns_token false world_1000 cache_120
              cache_120 (ticket_body "TICKET" 7200) (VStr "TICKET") 7200 1000
              (snd x) eq_refl Hx eq_refl eq_refl
              ltac:(vm_compute; reflexivity)) as (Hret & Htkt & _).
  split; [exact Hret|exact Htkt].
Defined.

(** X10.  Nothing that fetches or uses the access token writes the
    cache of the ticket: [get_access_token], with or without [force],
    and [request], whatever it is called with, leave [_jsapi_ticket] and
    [jsapi_ticket_expires_at] as they were. *)
Theorem token_paths_leave_the_ticket env s :
  (forall force, same_ticket s (snd (get_access_token force env s)))
  /\ (forall method url kw, same_ticket s (snd (request method url kw env s))).
Proof.
  split.
  - intros force. revert env s.
    apply (preserves_get_access_token same_ticket);
      first [ apply same_ticket_refl | apply same_ticket_trans
            | intros; split; reflexivity ].
  - intros method url kw. revert env s.
    apply (preserves_request same_ticket);
      first [ apply same_ticket_refl | apply same_ticket_trans
            | intros; split; reflexivity ].
Qed.
